(** * chubbPresent: the coordination layer of the AssistantBot

    A shallow embedding of [chubbPresent.py].  The worker threads
    ([stream_events], [stream_follow_up]) never read the shared state: they
    only write to it.  A worker is therefore embedded as a computation that
    emits an ordered trace of writes ([effect]) and either returns or raises;
    the trace is then replayed on the shared [AssistantBot] state, in one go
    for a run in isolation or one write at a time under an interleaving
    scheduler. *)

From Stdlib Require Import String Ascii List Bool Arith Lia.
Import ListNotations.
Open Scope string_scope.
Open Scope list_scope.

(** String concatenation, kept apart from the [++] of lists. *)
Infix "+:+" := String.append (at level 60, right associativity).

(** ** Strings *)

Definition nl : string := String (ascii_of_nat 10) EmptyString.

(** [needle in s] of Python, for a non-empty [needle]. *)
Fixpoint str_in (needle s : string) : bool :=
  String.prefix needle s ||
  match s with
  | EmptyString => false
  | String _ s' => str_in needle s'
  end.

(** Truthiness of a Python [str]. *)
Definition truthy (s : string) : bool :=
  match s with
  | EmptyString => false
  | String _ _ => true
  end.

(** ** Data exchanged with the collaborators *)

(** The exception caught by [except Exception as e], kept as [str(e)]. *)
Definition exn := string.

(** [telegram.Update]: only [update.message] is used. *)
Record Message := { chat_id : nat; text : string }.
Record Update := { message : Message }.

(** A block of [delta.content]: [block.type] and [block.text.value]. *)
Record ContentBlock := { block_type : string; text_value : string }.

(** [event.data.delta] of a [thread.message.delta] event. *)
Record MessageDelta := { content : option (list ContentBlock) }.

(** An event of the assistant stream: [event.event] and [event.data.delta]. *)
Record StreamEvent := { event : string; data_delta : option MessageDelta }.

(** [chunk.choices[i].delta], read with [getattr(delta, 'content', None)]. *)
Record Choice := { delta_content : option string }.
Record Chunk := { choices : list Choice }.

(** A stream as its consumer sees it: the items it yields, then either
    exhaustion ([None]) or an exception raised by the iterator. *)
Record Stream (A : Type) := { items : list A; failure : option exn }.
Arguments items {A} _.
Arguments failure {A} _.
Arguments Build_Stream {A} _ _.

Record ChatMessage := { role : string; msg_content : string }.

Record ChatRequest := {
  model : string;
  messages : list ChatMessage;
  temperature : nat;
  max_tokens : nat;
  top_p : nat;
  frequency_penalty : nat;
  presence_penalty : nat;
  stream : bool
}.

(** [self.client]: the two calls the bot makes, each returning a stream or
    raising. *)
Record OpenAI := {
  create_and_run : string -> list ChatMessage -> exn + Stream StreamEvent;
  chat_completions_create : ChatRequest -> exn + Stream Chunk
}.

(** ** The worker monad: a trace of writes, and a result or an exception *)

Inductive effect :=
| SetIsProcessing (b : bool)
| PutMessage (msg : option string)
| PutDone (update : Update)
| LogError (line : string).

Definition Worker (A : Type) : Type := list effect * (exn + A).

Definition ret {A} (a : A) : Worker A := ([], inr a).

Definition bind {A B} (m : Worker A) (f : A -> Worker B) : Worker B :=
  match snd m with
  | inl e => (fst m, inl e)
  | inr a => (fst m ++ fst (f a), snd (f a))
  end.

Definition raise {A} (e : exn) : Worker A := ([], inl e).

Definition emit (ef : effect) : Worker unit := ([ef], inr tt).

(** [try: m  except Exception as e: handler e] *)
Definition try_except {A} (m : Worker A) (handler : exn -> Worker A) : Worker A :=
  match snd m with
  | inl e => (fst m ++ fst (handler e), snd (handler e))
  | inr a => m
  end.

(** [try: m  finally: final] where [final] does not raise. *)
Definition try_finally {A} (m : Worker A) (final : Worker unit) : Worker A :=
  match snd final with
  | inl e => (fst m ++ fst final, inl e)
  | inr _ => (fst m ++ fst final, snd m)
  end.

(** [t = Thread(target=m); t.start(); t.join()]: the writes of [m] happen
    before [join] returns; an exception escaping [m] ends the thread and is
    not re-raised in the joiner. *)
Definition start_and_join (m : Worker unit) : Worker unit := (fst m, inr tt).

Declare Scope worker_scope.
Delimit Scope worker_scope with worker.
Notation "x <- m ;; k" := (bind m (fun x => k))
  (at level 61, m at next level, right associativity) : worker_scope.
Notation "m ;; k" := (bind m (fun _ => k))
  (at level 61, right associativity) : worker_scope.
Open Scope worker_scope.

(** [for x in l: acc = body x acc] *)
Fixpoint for_list {A S} (l : list A) (body : A -> S -> Worker S) (acc : S)
  : Worker S :=
  match l with
  | [] => ret acc
  | x :: l' => acc' <- body x acc ;; for_list l' body acc'
  end.

(** [for x in stream: ...]: the items, then the iterator's own failure. *)
Definition for_stream {A S} (st : Stream A) (body : A -> S -> Worker S)
  (acc : S) : Worker S :=
  acc' <- for_list (items st) body acc ;;
  match failure st with
  | Some e => raise e
  | None => ret acc'
  end.

(** ** Channel writes *)

Definition message_queue_put (msg : option string) : Worker unit :=
  emit (PutMessage msg).
Definition done_queue_put (update : Update) : Worker unit :=
  emit (PutDone update).
Definition logger_error (line : string) : Worker unit :=
  emit (LogError line).
Definition set_is_processing (b : bool) : Worker unit :=
  emit (SetIsProcessing b).

(** A call to the client: its stream, or its exception raised here. *)
Definition call {A} (r : exn + A) : Worker A :=
  match r with
  | inl e => raise e
  | inr a => ret a
  end.

(** ** The messages of the source *)

Definition rule : string := "______________________________________".

Definition answers_separator (user_message : string) : string :=
  nl +:+ nl +:+ "Answers for " +:+ user_message +:+ ":" +:+ nl +:+ rule +:+ nl +:+ nl.

Definition follow_up_separator : string :=
  nl +:+ nl +:+ "Possible Follow-up Questions and Answers:" +:+ nl +:+ rule
     +:+ nl +:+ nl.

Definition error_message (e : exn) : string := "An error occurred: " +:+ e.

Definition follow_up_error_message (e : exn) : string :=
  nl +:+ "An error occurred while generating follow-up: " +:+ e +:+ nl.

Definition follow_up_error_log (e : exn) : string :=
  "An error occurred while generating follow-up: " +:+ e.

Definition system_prompt : string :=
  "You are an assistant tasked with generating possible follow-up questions based on the input question and answer, along with well-structured responses to aid in addressing examiner questions during a thesis results seminar. "
  +:+ "Focus on commonly asked follow-up questions that frequently arise in thesis defense sessions and are relevant to the input question and answer. "
  +:+ "For each response, generate a structured and concise answer that i can be directly read aloud during the presentation. "
  +:+ "If applicable, highlight supporting data, statistical results, or comparisons with existing literature from the input, and avoid introducing speculative values or additional outcomes not explicitly mentioned. "
  +:+ "Use your general knowledge and other references if the question is a common one or to improve argument "
  +:+ "Always respond in Indonesian, don't use us but me, and don't use language that is too stiff, so that I can read it directly during the presentation.".

Definition follow_up_messages (user_message assistant_response : string)
  : list ChatMessage :=
  [ {| role := "system"; msg_content := system_prompt |};
    {| role := "user";
       msg_content := "Question: " +:+ user_message +:+ nl +:+ "Answer: "
                      +:+ assistant_response |} ].

Definition follow_up_request (user_message assistant_response : string)
  : ChatRequest :=
  {| model := "gpt-4o-mini";
     messages := follow_up_messages user_message assistant_response;
     temperature := 1;
     max_tokens := 2048;
     top_p := 1;
     frequency_penalty := 0;
     presence_penalty := 0;
     stream := true |}.

Definition thread_messages (user_message : string) : list ChatMessage :=
  [ {| role := "user"; msg_content := user_message |} ].

(** ** The workers *)

Section Workers.

Variable client : OpenAI.
Variable ASSISTANT_ID : string.

(** [chunk.choices[0]] *)
Definition first_choice (chunk : Chunk) : Worker Choice :=
  match choices chunk with
  | [] => raise "list index out of range"
  | c :: _ => ret c
  end.

(** The body of [for chunk in response] in [stream_follow_up]. *)
Definition follow_up_chunk (chunk : Chunk) (_ : unit) : Worker unit :=
  c <- first_choice chunk ;;
  match delta_content c with
  | Some txt => if truthy txt then message_queue_put (Some txt) else ret tt
  | None => ret tt
  end.

(** The [try] block of [stream_follow_up]. *)
Definition stream_follow_up_try (user_message assistant_response : string)
  : Worker unit :=
  message_queue_put (Some follow_up_separator) ;;
  response <- call (chat_completions_create client
                      (follow_up_request user_message assistant_response)) ;;
  for_stream response follow_up_chunk tt.

Definition stream_follow_up (user_message assistant_response : string)
  : Worker unit :=
  try_except
    (stream_follow_up_try user_message assistant_response)
    (fun e =>
       logger_error (follow_up_error_log e) ;;
       message_queue_put (Some (follow_up_error_message e))).

(** The body of [for block in delta.content] in [stream_events]. *)
Definition on_block (block : ContentBlock) (assistant_response : string)
  : Worker string :=
  if block_type block =? "text" then
    message_queue_put (Some (text_value block)) ;;
    ret (assistant_response +:+ text_value block)
  else ret assistant_response.

(** The body of [for event in stream] in [stream_events]. *)
Definition on_event (user_message : string) (update : Update)
  (ev : StreamEvent) (assistant_response : string) : Worker string :=
  if event ev =? "thread.message.delta" then
    match data_delta ev with
    | Some delta =>
        match content delta with
        | Some ((_ :: _) as blocks) =>
            for_list blocks on_block assistant_response
        | _ => ret assistant_response
        end
    | None => ret assistant_response
    end
  else if event ev =? "thread.message.completed" then
    start_and_join (stream_follow_up user_message assistant_response) ;;
    message_queue_put None ;;
    done_queue_put update ;;
    ret assistant_response
  else ret assistant_response.

(** The [try] block of [stream_events]. *)
Definition stream_events_try (user_message : string) (update : Update)
  : Worker unit :=
  st <- call (create_and_run client ASSISTANT_ID
                (thread_messages user_message)) ;;
  message_queue_put (Some (answers_separator user_message)) ;;
  _ <- for_stream st (on_event user_message update) "" ;;
  ret tt.

(** The [try ... except] statement of [stream_events]. *)
Definition stream_events_guarded (user_message : string) (update : Update)
  : Worker unit :=
  try_except
    (stream_events_try user_message update)
    (fun e =>
       logger_error (error_message e) ;;
       message_queue_put (Some (error_message e))).

Definition stream_events (user_message : string) (update : Update)
  : Worker unit :=
  set_is_processing true ;;
  try_finally (stream_events_guarded user_message update)
              (set_is_processing false).

End Workers.

(** ** The shared state of the bot *)

(** What is done to the [ScrolledText] widget, in order. *)
Inductive tkop :=
| Configure (state : string)
| Insert (chars : string) (tag : option string)
| See.

(** [self.root]: whether the window still exists, and the delays of the
    [update_gui] callbacks registered with [root.after]. *)
Record Tk := { winfo_exists : bool; after : list nat }.

Inductive level := INFO | ERROR.

Record AssistantBot := {
  is_processing : bool;
  root : option Tk;
  text_display : option (list tkop);
  message_queue : list (option string);
  done_queue : list Update;
  logger : list (level * string)
}.

(** The fields as [__init__] leaves them. *)
Definition init : AssistantBot :=
  {| is_processing := false;
     root := None;
     text_display := None;
     message_queue := [];
     done_queue := [];
     logger := [] |}.

Definition with_is_processing (b : bool) (self : AssistantBot) :=
  {| is_processing := b;
     root := root self;
     text_display := text_display self;
     message_queue := message_queue self;
     done_queue := done_queue self;
     logger := logger self |}.

Definition with_root (r : option Tk) (self : AssistantBot) :=
  {| is_processing := is_processing self;
     root := r;
     text_display := text_display self;
     message_queue := message_queue self;
     done_queue := done_queue self;
     logger := logger self |}.

Definition with_text_display (t : option (list tkop)) (self : AssistantBot) :=
  {| is_processing := is_processing self;
     root := root self;
     text_display := t;
     message_queue := message_queue self;
     done_queue := done_queue self;
     logger := logger self |}.

Definition with_message_queue (q : list (option string)) (self : AssistantBot) :=
  {| is_processing := is_processing self;
     root := root self;
     text_display := text_display self;
     message_queue := q;
     done_queue := done_queue self;
     logger := logger self |}.

Definition with_done_queue (q : list Update) (self : AssistantBot) :=
  {| is_processing := is_processing self;
     root := root self;
     text_display := text_display self;
     message_queue := message_queue self;
     done_queue := q;
     logger := logger self |}.

Definition log (lv : level) (line : string) (self : AssistantBot) :=
  {| is_processing := is_processing self;
     root := root self;
     text_display := text_display self;
     message_queue := message_queue self;
     done_queue := done_queue self;
     logger := logger self ++ [(lv, line)] |}.

(** One write of a worker, applied to the shared state. *)
Definition apply_effect (self : AssistantBot) (ef : effect) : AssistantBot :=
  match ef with
  | SetIsProcessing b => with_is_processing b self
  | PutMessage msg => with_message_queue (message_queue self ++ [msg]) self
  | PutDone update => with_done_queue (done_queue self ++ [update]) self
  | LogError line => log ERROR line self
  end.

(** A worker run without interruption. *)
Definition run_worker {A} (m : Worker A) (self : AssistantBot) : AssistantBot :=
  fold_left apply_effect (fst m) self.

(** The messages, and the completion signals, a trace puts on the channels. *)
Fixpoint pushed (tr : list effect) : list (option string) :=
  match tr with
  | [] => []
  | PutMessage msg :: tr' => msg :: pushed tr'
  | _ :: tr' => pushed tr'
  end.

Fixpoint signals (tr : list effect) : list Update :=
  match tr with
  | [] => []
  | PutDone update :: tr' => update :: signals tr'
  | _ :: tr' => signals tr'
  end.

(** The values written to [is_processing]. *)
Fixpoint gate_writes (tr : list effect) : list bool :=
  match tr with
  | [] => []
  | SetIsProcessing b :: tr' => b :: gate_writes tr'
  | _ :: tr' => gate_writes tr'
  end.

(** ** The display surface *)

(** [self.text_display and self.root and self.root.winfo_exists()] *)
Definition surface_usable (self : AssistantBot) : bool :=
  match text_display self, root self with
  | Some _, Some r => winfo_exists r
  | _, _ => false
  end.

(** [self.root and self.root.winfo_exists()] *)
Definition root_exists (self : AssistantBot) : bool :=
  match root self with
  | Some r => winfo_exists r
  | None => false
  end.

Definition widget_do (ops : list tkop) (self : AssistantBot) : AssistantBot :=
  match text_display self with
  | Some done => with_text_display (Some (done ++ ops)) self
  | None => self
  end.

Definition error_prefix : string := "An error occurred:".

(** The [elif msg.startswith("An error occurred:")] branch, up to [break]. *)
Definition show_error (msg : string) (self : AssistantBot) : AssistantBot :=
  let self := log ERROR msg self in
  if surface_usable self then
    widget_do [ Configure "normal";
                Insert (nl +:+ "ERROR: " +:+ msg +:+ nl) None;
                Configure "disabled";
                See ] self
  else self.

(** The [else] branch. *)
Definition show_text (msg : string) (self : AssistantBot) : AssistantBot :=
  if surface_usable self then
    if str_in "Answers for" msg
       || str_in "Possible Follow-up Questions and Answers" msg
    then widget_do [ Configure "normal";
                     Insert msg (Some "separator");
                     See;
                     Configure "disabled" ] self
    else widget_do [ Configure "normal"; Insert msg None;
                     Configure "disabled" ] self
  else self.

(** The [while True] loop of [update_gui] on the queue content [q]:
    [get_nowait] takes the head, and [queue.Empty] ends the loop. *)
Fixpoint drain (q : list (option string)) (self : AssistantBot) : AssistantBot :=
  match q with
  | [] => with_message_queue [] self
  | None :: q' => log INFO "Stream completed" (with_message_queue q' self)
  | Some msg :: q' =>
      if String.prefix error_prefix msg
      then show_error msg (with_message_queue q' self)
      else drain q' (show_text msg (with_message_queue q' self))
  end.

(** The [finally] clause of [update_gui]. *)
Definition reschedule (self : AssistantBot) : AssistantBot :=
  match root self with
  | Some r =>
      if winfo_exists r
      then with_root (Some {| winfo_exists := true;
                              after := after r ++ [100] |}) self
      else self
  | None => self
  end.

Definition update_gui (self : AssistantBot) : AssistantBot :=
  reschedule (drain (message_queue self) self).

(** [create_gui] up to [self.root.mainloop()]. *)
Definition create_gui_open (self : AssistantBot) : AssistantBot :=
  if negb (root_exists self) then
    let self := with_root (Some {| winfo_exists := true; after := [] |}) self in
    let self := with_text_display (Some []) self in
    update_gui self
  else self.

(** [create_gui] after [mainloop] has returned (or was not entered). *)
Definition create_gui_close (self : AssistantBot) : AssistantBot :=
  with_text_display None (with_root None self).

(** ** The process: dispatcher, worker threads, notifier, display thread *)

(** A [stream_events] thread: the writes it has made, the writes it has yet
    to make. *)
Record Thread := { made : list effect; todo : list effect }.

Record World := {
  bot : AssistantBot;
  replies : list (Update * string);
  workers : list Thread;
  gui_threads : nat
}.

Definition boot : World :=
  {| bot := init; replies := []; workers := []; gui_threads := 0 |}.

Definition with_bot (b : AssistantBot) (w : World) : World :=
  {| bot := b; replies := replies w; workers := workers w;
     gui_threads := gui_threads w |}.

Definition with_workers (ts : list Thread) (w : World) : World :=
  {| bot := bot w; replies := replies w; workers := ts;
     gui_threads := gui_threads w |}.

Definition with_gui_threads (n : nat) (w : World) : World :=
  {| bot := bot w; replies := replies w; workers := workers w;
     gui_threads := n |}.

(** [await update.message.reply_text(line)] when the call goes through: the
    reply is recorded.  The call that may raise is [reply_text_via] below. *)
Definition reply_text (update : Update) (line : string) (w : World) : World :=
  {| bot := bot w; replies := replies w ++ [(update, line)];
     workers := workers w; gui_threads := gui_threads w |}.

Section Process.

Variable client : OpenAI.
Variable ASSISTANT_ID : string.

(** [Thread(target=self.stream_events, ...).start()]: the thread exists, and
    has not run any statement yet. *)
Definition start_streaming (user_message : string) (update : Update)
  (w : World) : World :=
  with_workers
    (workers w ++
       [ {| made := [];
            todo := fst (stream_events client ASSISTANT_ID user_message
                           update) |} ])
    w.

Definition handle_message (update : Update) (w : World) : World :=
  if is_processing (bot w) then
    reply_text update
      "I'm still processing the previous request. Please wait." w
  else
    let user_message := text (message update) in
    let w := with_bot (log INFO ("Received message: " +:+ user_message)
                         (bot w)) w in
    let w := start_streaming user_message update w in
    let w := if negb (root_exists (bot w))
             then with_gui_threads (S (gui_threads w)) w
             else w in
    reply_text update "Processing your request..." w.

(** [check_done_queue] when every reply goes through: [send_done_message]
    for each update of [done_queue], in queue order.  Its loop with replies
    that may raise is [notify] below. *)
Definition check_done_queue (w : World) : World :=
  {| bot := with_done_queue [] (bot w);
     replies := replies w ++ map (fun u => (u, "Done")) (done_queue (bot w));
     workers := workers w;
     gui_threads := gui_threads w |}.

(** Thread [i] makes its next write. *)
Fixpoint advance (i : nat) (ts : list Thread) (self : AssistantBot)
  : list Thread * AssistantBot :=
  match ts, i with
  | [], _ => ([], self)
  | t :: ts', O =>
      match todo t with
      | [] => (ts, self)
      | ef :: rest =>
          ({| made := made t ++ [ef]; todo := rest |} :: ts',
           apply_effect self ef)
      end
  | t :: ts', S i' =>
      let r := advance i' ts' self in (t :: fst r, snd r)
  end.

Definition worker_step (i : nat) (w : World) : World :=
  let r := advance i (workers w) (bot w) in
  with_bot (snd r) (with_workers (fst r) w).

(** What the scheduler may run next.  Each is atomic: the handler has no
    [await] between its gate check and its reply, the notifier and the
    display callback run on their own threads of control, and a worker is
    preempted only between two writes. *)
Inductive action :=
| Inbound (update : Update)
| WorkerWrite (i : nat)
| NotifierTick
| GuiOpen
| GuiPoll
| GuiClose.

Definition exec (w : World) (a : action) : World :=
  match a with
  | Inbound update => handle_message update w
  | WorkerWrite i => worker_step i w
  | NotifierTick => check_done_queue w
  | GuiOpen =>
      match gui_threads w with
      | O => w
      | S n => with_bot (create_gui_open (bot w)) (with_gui_threads n w)
      end
  | GuiPoll =>
      match root (bot w) with
      | Some {| winfo_exists := true; after := _ :: jobs |} =>
          with_bot (update_gui
                      (with_root (Some {| winfo_exists := true;
                                          after := jobs |}) (bot w))) w
      | _ => w
      end
  | GuiClose => with_bot (create_gui_close (bot w)) w
  end.

Definition run (schedule : list action) (w : World) : World :=
  fold_left exec schedule w.

End Process.

(** A thread is between its first write ([is_processing = True]) and its
    last ([is_processing = False]). *)
Definition in_flight (t : Thread) : bool :=
  match made t, todo t with
  | _ :: _, _ :: _ => true
  | _, _ => false
  end.

Definition in_flight_count (w : World) : nat :=
  length (filter in_flight (workers w)).

(** ** The notifier when a reply can fail

    [reply_text] above records a reply that went through.  The call can also
    raise (a network error, a user who blocked the bot); [check_done_queue]
    catches [queue.Empty] only, so such an exception escapes its loop. *)

(** Telegram as the notifier meets it: [update.message.reply_text(line)]
    delivers the line ([None]) or raises. *)
Definition Telegram := Update -> string -> option exn.

Definition reply_text_via (telegram : Telegram) (update : Update)
  (line : string) (w : World) : exn + World :=
  match telegram update line with
  | Some e => inl e
  | None => inr (reply_text update line w)
  end.

Definition send_done_message (telegram : Telegram) (update : Update)
  (w : World) : exn + World :=
  reply_text_via telegram update "Done" w.

(** The [while True] loop of [check_done_queue] on the queue content [q]:
    [get_nowait] takes the head off the queue before the reply is awaited;
    [queue.Empty] ends the loop, any other exception leaves it at once.  The
    result is the state the loop leaves and the exception that escaped. *)
Fixpoint notify (telegram : Telegram) (q : list Update) (w : World)
  : World * option exn :=
  match q with
  | [] => (with_bot (with_done_queue [] (bot w)) w, None)
  | update :: q' =>
      let w := with_bot (with_done_queue q' (bot w)) w in
      match send_done_message telegram update w with
      | inl e => (w, Some e)
      | inr w' => notify telegram q' w'
      end
  end.

Definition check_done_queue_via (telegram : Telegram) (w : World)
  : World * option exn :=
  notify telegram (done_queue (bot w)) w.

(** * Vocabulary of the statements *)

(** The events that end a pass. *)
Definition stops_pass (m : option string) : bool :=
  match m with
  | None => true
  | Some msg => String.prefix error_prefix msg
  end.

Definition passes (q : list (option string)) : bool :=
  forallb (fun m => negb (stops_pass m)) q.

(** A surface that is up, with [q] waiting in the message queue. *)
Definition active_surface (q : list (option string)) : AssistantBot :=
  {| is_processing := true;
     root := Some {| winfo_exists := true; after := [] |};
     text_display := Some [];
     message_queue := q;
     done_queue := [];
     logger := [] |}.

(** The writes of the streaming code proper: text onto the message queue. *)
Definition text_put (ef : effect) : Prop :=
  exists txt, ef = PutMessage (Some txt).

(** Writes that leave the gate alone. *)
Definition leaves_gate (ef : effect) : Prop :=
  match ef with
  | SetIsProcessing _ => False
  | _ => True
  end.

Definition put_text (txt : string) : effect := PutMessage (Some txt).

(** What the follow-up loop pushes for one chunk that has a first choice. *)
Definition chunk_text (chunk : Chunk) : list string :=
  match choices chunk with
  | {| delta_content := Some txt |} :: _ => if truthy txt then [txt] else []
  | _ => []
  end.

Definition has_choice (chunk : Chunk) : Prop := choices chunk <> [].

Definition not_completed (ev : StreamEvent) : Prop :=
  event ev <> "thread.message.completed".

(** Events the loop of [stream_events] passes over. *)
Definition ignored (ev : StreamEvent) : Prop :=
  event ev <> "thread.message.delta" /\ event ev <> "thread.message.completed".

(** A client whose two calls answer the same way whatever they are asked. *)
Definition scripted (first : exn + Stream StreamEvent)
  (second : exn + Stream Chunk) : OpenAI :=
  {| create_and_run := fun _ _ => first;
     chat_completions_create := fun _ => second |}.

Definition delta_event (txt : string) : StreamEvent :=
  {| event := "thread.message.delta";
     data_delta :=
       Some {| content := Some [ {| block_type := "text";
                                    text_value := txt |} ] |} |}.

Definition completed_event : StreamEvent :=
  {| event := "thread.message.completed"; data_delta := None |}.

Definition text_chunk (txt : string) : Chunk :=
  {| choices := [ {| delta_content := Some txt |} ] |}.

Definition alice : Update :=
  {| message := {| chat_id := 7; text := "What is the answer?" |} |}.

(** The first call succeeds, its stream reports the message completed and
    then raises. *)
Definition fails_after_completion : OpenAI :=
  scripted (inr {| items := [completed_event];
                   failure := Some "connection reset" |})
           (inr {| items := []; failure := None |}).

Definition fails_mid_stream : OpenAI :=
  scripted (inr {| items := [delta_event "The"];
                   failure := Some "connection reset" |})
           (inr {| items := []; failure := None |}).

Definition answers_42 : OpenAI :=
  scripted (inr {| items := [ delta_event "The"; delta_event " answer";
                              delta_event " is 42"; completed_event ];
                   failure := None |})
           (inr {| items := [ text_chunk "Why 42?"; text_chunk "";
                              text_chunk " Because." ];
                   failure := None |}).

(** The follow-up call is refused. *)
Definition follow_up_refused : OpenAI :=
  scripted (inr {| items := [ delta_event "42"; completed_event;
                              {| event := "thread.run.completed";
                                 data_delta := None |} ];
                   failure := None |})
           (inl "rate limited").

(** The follow-up call is refused for the answer "42" to the question "q",
    and for no other prompt. *)
Definition refuses_42 : OpenAI :=
  {| create_and_run := fun _ _ =>
       inr {| items := [ delta_event "4"; delta_event "2"; completed_event;
                         {| event := "thread.run.completed";
                            data_delta := None |} ];
              failure := None |};
     chat_completions_create := fun request =>
       match messages request with
       | [_; question] =>
           if msg_content question
              =? "Question: q" +:+ nl +:+ "Answer: 42"
           then inl "rate limited"
           else inr {| items := [text_chunk "Why?"]; failure := None |}
       | _ => inr {| items := [text_chunk "Why?"]; failure := None |}
       end |}.

(** The follow-up call is refused, with words of a separator in the
    exception text. *)
Definition refused_in_separator_words : OpenAI :=
  scripted (inr {| items := [delta_event "42"; completed_event];
                   failure := None |})
           (inl "no Answers for you").

(** [msg] holds one of the two phrases [update_gui] looks for. *)
Definition separator_phrase (msg : string) : bool :=
  str_in "Answers for" msg
  || str_in "Possible Follow-up Questions and Answers" msg.

(** Two states of the process that differ at most in the replies sent. *)
Definition same_but_replies (w1 w2 : World) : Prop :=
  bot w1 = bot w2 /\ workers w1 = workers w2
  /\ gui_threads w1 = gui_threads w2.

Definition bob : Update :=
  {| message := {| chat_id := 8; text := "And the question?" |} |}.

(** A schedule in which the thread started by the dispatcher runs its first
    statement before anything else happens: what the source relies on. *)
Definition handle_then_start (client : OpenAI) (ASSISTANT_ID : string)
  (update : Update) (w : World) : World :=
  let w' := handle_message client ASSISTANT_ID update w in
  if is_processing (bot w) then w'
  else worker_step (length (workers w)) w'.

Definition exec_prompt (client : OpenAI) (ASSISTANT_ID : string)
  (w : World) (a : action) : World :=
  match a with
  | Inbound update => handle_then_start client ASSISTANT_ID update w
  | _ => exec client ASSISTANT_ID w a
  end.

Definition run_prompt (client : OpenAI) (ASSISTANT_ID : string)
  (schedule : list action) (w : World) : World :=
  fold_left (exec_prompt client ASSISTANT_ID) schedule w.

(** A thread has returned, or has taken the gate and will release it with
    its last write and not before. *)
Definition well_formed (t : Thread) : Prop :=
  todo t = []
  \/ (made t <> []
      /\ exists rest, todo t = rest ++ [SetIsProcessing false]
                      /\ Forall leaves_gate rest).

Definition in_flight_in (ts : list Thread) : nat :=
  length (filter in_flight ts).

(** The flag tells whether a request is in flight, and at most one is. *)
Definition serialised (w : World) : Prop :=
  Forall well_formed (workers w)
  /\ in_flight_in (workers w) = if is_processing (bot w) then 1 else 0.

(** ** Startup *)

(** The three secrets [__init__] keeps: [self.API_KEY], [self.TELEGRAM_TOKEN]
    and [self.ASSISTANT_ID]. *)
Record Settings := {
  api_key : string;
  telegram_token : string;
  assistant_id : string
}.

(** [value = os.getenv(name)] followed by
    [if not value: raise ValueError(msg)]: an unset variable and an empty
    one are both refused. *)
Definition require (value : option string) (msg : string) : exn + string :=
  match value with
  | Some v => if truthy v then inr v else inl msg
  | None => inl msg
  end.

Definition api_key_missing : string :=
  "API key is missing. Please set the OPENAI_API_KEY environment variable.".

Definition telegram_token_missing : string :=
  "Telegram token is missing. Please set the TELEGRAM_TOKEN environment variable.".

Definition assistant_id_missing : string :=
  "Assistant ID is missing. Please set the ASSISTANT_ID environment variable.".

(** [AssistantBot.__init__] over the process environment [getenv]. *)
Definition __init__ (getenv : string -> option string)
  : exn + (Settings * AssistantBot) :=
  match require (getenv "OPENAI_API_KEY") api_key_missing with
  | inl e => inl e
  | inr key =>
      match require (getenv "TELEGRAM_TOKEN") telegram_token_missing with
      | inl e => inl e
      | inr token =>
          match require (getenv "ASSISTANT_ID") assistant_id_missing with
          | inl e => inl e
          | inr assistant =>
              inr ({| api_key := key; telegram_token := token;
                      assistant_id := assistant |}, init)
          end
      end
  end.

(** ** Vocabulary of the further properties *)

(** A variable [__init__] refuses: unset, or set to the empty string. *)
Definition missing (value : option string) : bool :=
  match value with
  | Some v => negb (truthy v)
  | None => true
  end.

(** [assistant_response] after [+=] of each text in turn. *)
Definition joined (txts : list string) : string :=
  fold_right String.append EmptyString txts.

(** The texts one event adds to the answer: the values of the text blocks of
    a delta event. *)
Definition event_texts (ev : StreamEvent) : list string :=
  if event ev =? "thread.message.delta" then
    match data_delta ev with
    | Some {| content := Some blocks |} =>
        map text_value (filter (fun b => block_type b =? "text") blocks)
    | _ => []
    end
  else [].

Definition is_completed (ev : StreamEvent) : bool :=
  event ev =? "thread.message.completed".

Definition is_sentinel (m : option string) : bool :=
  match m with
  | None => true
  | Some _ => false
  end.

(** The "Done" replies to the originators [us], in order. *)
Definition done_replies (us : list Update) : list (Update * string) :=
  map (fun u => (u, "Done")) us.

(** The "Done" reply to [u] goes through. *)
Definition delivers (telegram : Telegram) (u : Update) : bool :=
  match telegram u "Done" with
  | None => true
  | Some _ => false
  end.

(** [n] runs of the notifier job in a row; an exception that escapes a run
    ends that run only. *)
Fixpoint ticks (telegram : Telegram) (n : nat) (w : World) : World :=
  match n with
  | O => w
  | S n' => ticks telegram n' (fst (check_done_queue_via telegram w))
  end.

(** Replies to chat 8 raise, all others go through. *)
Definition bob_unreachable : Telegram :=
  fun u _ =>
    if Nat.eqb (chat_id (message u)) 8
    then Some "Forbidden: bot was blocked by the user"
    else None.

(** Thread [i] makes [n] writes in a row. *)
Fixpoint drive (i n : nat) (w : World) : World :=
  match n with
  | O => w
  | S n' => drive i n' (worker_step i w)
  end.

(** [n] polling cycles in a row. *)
Fixpoint polls (n : nat) (self : AssistantBot) : AssistantBot :=
  match n with
  | O => self
  | S n' => polls n' (update_gui self)
  end.

(** The texts inserted into the widget, in order. *)
Definition inserted (ops : list tkop) : list string :=
  flat_map (fun op => match op with
                      | Insert chars _ => [chars]
                      | _ => []
                      end) ops.

Definition on_screen (self : AssistantBot) : list string :=
  match text_display self with
  | Some ops => inserted ops
  | None => []
  end.

(** What a queued event looks like once drained onto a usable surface. *)
Definition shown_as (m : option string) : list string :=
  match m with
  | None => []
  | Some msg =>
      if String.prefix error_prefix msg
      then [nl +:+ "ERROR: " +:+ msg +:+ nl]
      else [msg]
  end.

(** The stream reports two completed messages, then fails; every follow-up
    call is refused. *)
Definition completes_twice : OpenAI :=
  scripted (inr {| items := [ delta_event "a"; completed_event;
                              delta_event "b"; completed_event ];
                   failure := Some "connection reset" |})
           (inl "rate limited").

(** * Properties *)

(** ** Strings *)

Lemma prefix_spec (p s : string) :
  String.prefix p s = true <-> exists b, s = p +:+ b.
Proof.
  revert s; induction p as [|c p IH]; intros s; simpl.
  - split; [intros _; exists s; reflexivity | intros _; destruct s; reflexivity].
  - destruct s as [|d s]; simpl.
    + split; [discriminate | intros [b Hb]; discriminate].
    + destruct (ascii_dec c d) as [->|Hcd].
      * rewrite IH. split; intros [b Hb]; exists b; congruence.
      * split; [discriminate | intros [b Hb]; congruence].
Qed.

Lemma str_in_spec (needle s : string) :
  str_in needle s = true <-> exists a b, s = a +:+ needle +:+ b.
Proof.
  induction s as [|c s IH]; cbn [str_in].
  - rewrite orb_false_r, prefix_spec. split.
    + intros [b Hb]. exists EmptyString, b. exact Hb.
    + intros [a [b Hab]]. destruct a; simpl in Hab; [eauto | discriminate].
  - rewrite orb_true_iff, IH, prefix_spec. split.
    + intros [[b Hb] | [a [b Hab]]].
      * exists EmptyString, b. exact Hb.
      * exists (String c a), b. simpl. congruence.
    + intros [a [b Hab]]. destruct a as [|d a]; simpl in Hab.
      * left. eauto.
      * right. exists a, b. congruence.
Qed.

Lemma follow_up_error_message_not_error (e : exn) :
  String.prefix error_prefix (follow_up_error_message e) = false.
Proof. reflexivity. Qed.

Lemma error_message_is_error (e : exn) :
  String.prefix error_prefix (error_message e) = true.
Proof. apply prefix_spec. exists (String " " e). reflexivity. Qed.

Lemma prefix_before_newline (needle : string) : forall s,
  str_in nl needle = false ->
  String.prefix needle (s +:+ nl) = String.prefix needle s.
Proof.
  induction needle as [|a needle IH]; intros s Hnl.
  - destruct s; reflexivity.
  - cbn [str_in] in Hnl. apply orb_false_iff in Hnl. destruct Hnl as [Ha Hrest].
    assert (Hne : a <> ascii_of_nat 10).
    { intros ->. cbn in Ha. destruct needle; discriminate. }
    destruct s as [|b s]; cbn [append String.prefix].
    + unfold nl. cbn [String.prefix].
      destruct (ascii_dec a (ascii_of_nat 10)); [contradiction | reflexivity].
    + destruct (ascii_dec a b); [now apply IH | reflexivity].
Qed.

(** A phrase without a newline is found in [s] followed by a newline exactly
    when it is found in [s]. *)
Lemma str_in_before_newline (a : ascii) (needle s : string) :
  str_in nl (String a needle) = false ->
  str_in (String a needle) (s +:+ nl) = str_in (String a needle) s.
Proof.
  intros Hnl. induction s as [|c s IH].
  - cbn [append]. unfold nl at 1. cbn [str_in].
    change (String (ascii_of_nat 10) "") with ("" +:+ nl).
    now rewrite (prefix_before_newline _ "" Hnl).
  - cbn [append str_in]. rewrite IH.
    change (String c (s +:+ nl)) with (String c s +:+ nl).
    now rewrite (prefix_before_newline _ (String c s) Hnl).
Qed.

Lemma follow_up_error_message_phrase (e : exn) :
  separator_phrase (follow_up_error_message e) = separator_phrase e.
Proof.
  unfold separator_phrase.
  rewrite <- (str_in_before_newline _ _ e (eq_refl : str_in nl "Answers for" = false)).
  rewrite <- (str_in_before_newline _ _ e
                (eq_refl : str_in nl "Possible Follow-up Questions and Answers"
                           = false)).
  reflexivity.
Qed.

(** ** The drain pass *)

Lemma show_text_message_queue msg self :
  message_queue (show_text msg self) = message_queue self.
Proof.
  unfold show_text, widget_do.
  destruct (surface_usable self); [|reflexivity].
  destruct (_ || _); destruct (text_display self); reflexivity.
Qed.

Lemma show_text_root msg self : root (show_text msg self) = root self.
Proof.
  unfold show_text, widget_do.
  destruct (surface_usable self); [|reflexivity].
  destruct (_ || _); destruct (text_display self); reflexivity.
Qed.

Lemma show_error_message_queue msg self :
  message_queue (show_error msg self) = message_queue self.
Proof.
  unfold show_error, widget_do.
  destruct (surface_usable _); [|reflexivity].
  simpl. destruct (text_display self); reflexivity.
Qed.

Lemma show_error_root msg self : root (show_error msg self) = root self.
Proof.
  unfold show_error, widget_do.
  destruct (surface_usable _); [|reflexivity].
  simpl. destruct (text_display self); reflexivity.
Qed.

Lemma drain_root q : forall self, root (drain q self) = root self.
Proof.
  induction q as [|[msg|] q IH]; intros self; simpl; try reflexivity.
  destruct (String.prefix error_prefix msg).
  - now rewrite show_error_root.
  - now rewrite IH, show_text_root.
Qed.

Lemma drain_all q : forall self,
  passes q = true -> message_queue (drain q self) = [].
Proof.
  induction q as [|[msg|] q IH]; intros self; simpl; try reflexivity;
    try discriminate.
  destruct (String.prefix error_prefix msg); simpl; [discriminate|].
  intros H. now apply IH.
Qed.

Lemma drain_until pre : forall m post self,
  passes pre = true -> stops_pass m = true ->
  message_queue (drain (pre ++ m :: post) self) = post.
Proof.
  induction pre as [|[msg|] pre IH]; intros m post self; simpl.
  - intros _ Hm. destruct m as [msg|]; simpl in Hm.
    + rewrite Hm. now rewrite show_error_message_queue.
    + reflexivity.
  - destruct (String.prefix error_prefix msg); simpl; [discriminate|].
    intros Hpre Hm. now apply IH.
  - discriminate.
Qed.

Lemma reschedule_message_queue self :
  message_queue (reschedule self) = message_queue self.
Proof.
  unfold reschedule. destruct (root self) as [[[] ?]|]; reflexivity.
Qed.

Lemma reschedule_text_display self :
  text_display (reschedule self) = text_display self.
Proof.
  unfold reschedule. destruct (root self) as [[[] ?]|]; reflexivity.
Qed.

Lemma reschedule_root_exists self :
  root_exists (reschedule self) = root_exists self.
Proof.
  unfold root_exists, reschedule.
  destruct (root self) as [[[] jobs]|] eqn:E; simpl; rewrite ?E; reflexivity.
Qed.

Lemma reschedule_root self r :
  root self = Some r -> winfo_exists r = true ->
  root (reschedule self)
  = Some {| winfo_exists := true; after := after r ++ [100] |}.
Proof. intros Hr Hex. unfold reschedule. now rewrite Hr, Hex. Qed.

Lemma reschedule_root_gone self :
  root_exists self = false -> root (reschedule self) = root self.
Proof.
  unfold root_exists, reschedule.
  destruct (root self) as [[[] jobs]|] eqn:E; simpl; congruence.
Qed.

(** C7, as stated, fails: with no end-of-stream marker in the queue and the
    surface up, a pass that meets a primary error chunk leaves the event
    queued behind it undrained. *)
Lemma pass_stops_short_of_queued_event :
  let q := [Some "An error occurred: boom"; Some "late"] in
  forallb (fun m => match m with None => false | Some _ => true end) q = true
  /\ root_exists (active_surface q) = true
  /\ message_queue (update_gui (active_surface q)) = [Some "late"].
Proof. repeat split. Qed.

(** C7 (amended): a pass of [update_gui] takes events from the head of the
    queue until the queue is empty or it has taken an event that ends the
    pass, which is either the end-of-stream marker or a message starting with
    "An error occurred:"; the events behind that one stay queued.  The pass
    leaves the window as it found it, and registers the next pass 100 ms
    later exactly when the window exists. *)
Theorem update_gui_pass (self : AssistantBot) :
  (passes (message_queue self) = true -> message_queue (update_gui self) = [])
  /\ (forall pre m post,
        message_queue self = pre ++ m :: post ->
        passes pre = true -> stops_pass m = true ->
        message_queue (update_gui self) = post)
  /\ root_exists (update_gui self) = root_exists self
  /\ (forall r, root self = Some r -> winfo_exists r = true ->
        root (update_gui self)
        = Some {| winfo_exists := true; after := after r ++ [100] |})
  /\ (root_exists self = false -> root (update_gui self) = root self).
Proof.
  unfold update_gui. repeat split.
  - intros H. rewrite reschedule_message_queue. now apply drain_all.
  - intros pre m post Hq Hpre Hm.
    rewrite reschedule_message_queue, Hq. now apply drain_until.
  - rewrite reschedule_root_exists. unfold root_exists.
    now rewrite drain_root.
  - intros r Hr Hex. apply reschedule_root; [|exact Hex].
    now rewrite drain_root.
  - intros H. rewrite reschedule_root_gone; [apply drain_root|].
    unfold root_exists in *. now rewrite drain_root.
Qed.

Lemma update_gui_pass_witness :
  message_queue
    (update_gui (active_surface [Some "The"; None; Some "next"]))
  = [Some "next"].
Proof.
  apply (proj1 (proj2 (update_gui_pass
                         (active_surface [Some "The"; None; Some "next"])))
           [Some "The"] None [Some "next"]); reflexivity.
Defined.

(** C8: a drained message that starts with "An error occurred:" is logged,
    shown as "\nERROR: <msg>\n" when the surface is up, and ends the pass,
    wherever in the pass the loop takes it from the queue: what was queued
    behind it is still queued when [update_gui] returns. *)
Theorem error_chunk_ends_pass (msg : string) (q : list (option string))
  (self : AssistantBot) :
  String.prefix error_prefix msg = true ->
  message_queue self = Some msg :: q ->
  drain (Some msg :: q) self = show_error msg (with_message_queue q self)
  /\ message_queue (update_gui self) = q
  /\ logger (update_gui self) = logger self ++ [(ERROR, msg)]
  /\ (forall shown, text_display self = Some shown ->
        root_exists self = true ->
        text_display (update_gui self)
        = Some (shown ++ [ Configure "normal";
                           Insert (nl +:+ "ERROR: " +:+ msg +:+ nl) None;
                           Configure "disabled";
                           See ])).
Proof.
  intros Hmsg Hq.
  split; [cbn [drain]; now rewrite Hmsg|].
  unfold update_gui. rewrite Hq. cbn [drain]. rewrite Hmsg.
  repeat split.
  - now rewrite reschedule_message_queue, show_error_message_queue.
  - unfold reschedule. rewrite show_error_root. cbn [with_message_queue root].
    unfold show_error, widget_do, surface_usable; simpl.
    destruct (text_display self), (root self) as [[[] jobs]|]; reflexivity.
  - intros shown Hshown Hex. rewrite reschedule_text_display.
    unfold root_exists in Hex.
    unfold show_error, widget_do, surface_usable; simpl.
    rewrite Hshown.
    destruct (root self) as [[[] jobs]|]; try discriminate. reflexivity.
Qed.

Lemma error_chunk_ends_pass_witness :
  message_queue
    (update_gui (active_surface [Some "An error occurred: boom"; Some "late"]))
  = [Some "late"].
Proof.
  apply (error_chunk_ends_pass "An error occurred: boom" [Some "late"]
           (active_surface [Some "An error occurred: boom"; Some "late"]));
    reflexivity.
Defined.

(** C10, as stated, fails: a message that contains "Answers for" but starts
    with "An error occurred:" is shown by the error branch, without the
    separator tag. *)
Lemma error_prefix_wins_over_separator :
  let msg := "An error occurred: no Answers for you" in
  str_in "Answers for" msg = true
  /\ text_display (update_gui (active_surface [Some msg]))
     = Some [ Configure "normal";
              Insert (nl +:+ "ERROR: " +:+ msg +:+ nl) None;
              Configure "disabled";
              See ].
Proof. split; reflexivity. Qed.

(** C10 (amended): a drained message that does not start with
    "An error occurred:" and contains "Answers for" or "Possible Follow-up
    Questions and Answers" anywhere is inserted with the separator tag and
    scrolled into view, whatever produced it; the pass then goes on. *)
Theorem separator_style_by_substring (msg : string)
  (q : list (option string)) (self : AssistantBot) (shown : list tkop) :
  String.prefix error_prefix msg = false ->
  (exists a b, msg = a +:+ "Answers for" +:+ b)
  \/ (exists a b, msg = a +:+ "Possible Follow-up Questions and Answers" +:+ b) ->
  text_display self = Some shown ->
  root_exists self = true ->
  drain (Some msg :: q) self
  = drain q (with_text_display
               (Some (shown ++ [ Configure "normal";
                                 Insert msg (Some "separator");
                                 See;
                                 Configure "disabled" ]))
               (with_message_queue q self)).
Proof.
  intros Hmsg Hin Hshown Hex. cbn [drain]. rewrite Hmsg. f_equal.
  assert (Hsep : str_in "Answers for" msg
                 || str_in "Possible Follow-up Questions and Answers" msg
                 = true).
  { apply orb_true_iff. destruct Hin as [H|H]; [left|right];
      now apply str_in_spec. }
  unfold root_exists in Hex.
  unfold show_text, widget_do, surface_usable; cbn [with_message_queue
    text_display root]. rewrite Hshown, Hsep.
  destruct (root self) as [[[] jobs]|]; try discriminate. reflexivity.
Qed.

Lemma separator_style_by_substring_witness :
  drain [Some "Answers for all"; None] (active_surface [])
  = drain [None]
      (with_text_display
         (Some ([] ++ [ Configure "normal";
                        Insert "Answers for all" (Some "separator");
                        See;
                        Configure "disabled" ]))
         (with_message_queue [None] (active_surface []))).
Proof.
  apply (separator_style_by_substring "Answers for all" [None]
           (active_surface []) []).
  - reflexivity.
  - left. exists "", " all". reflexivity.
  - reflexivity.
  - reflexivity.
Defined.

(** ** The worker monad *)

Lemma bind_ok {A B} (m : Worker A) (f : A -> Worker B) (a : A) :
  snd m = inr a -> bind m f = (fst m ++ fst (f a), snd (f a)).
Proof. intros H. unfold bind. now rewrite H. Qed.

Lemma bind_raise {A B} (m : Worker A) (f : A -> Worker B) (e : exn) :
  snd m = inl e -> bind m f = (fst m, inl e).
Proof. intros H. unfold bind. now rewrite H. Qed.

Lemma bind_emit {B} (ef : effect) (k : unit -> Worker B) :
  bind (emit ef) k = (ef :: fst (k tt), snd (k tt)).
Proof. reflexivity. Qed.

Lemma bind_ret {A B} (a : A) (f : A -> Worker B) : bind (ret a) f = f a.
Proof. unfold bind, ret; simpl. now destruct (f a). Qed.

Lemma bind_assoc {A B C} (m : Worker A) (f : A -> Worker B)
  (g : B -> Worker C) :
  bind (bind m f) g = bind m (fun a => bind (f a) g).
Proof.
  unfold bind. destruct m as [tr [e|a]]; simpl; [reflexivity|].
  destruct (f a) as [tr' [e|b]]; simpl; [reflexivity|].
  now rewrite app_assoc.
Qed.

Lemma bind_ext {A B} (m : Worker A) (f g : A -> Worker B) :
  (forall a, f a = g a) -> bind m f = bind m g.
Proof. intros H. unfold bind. destruct (snd m); [reflexivity|now rewrite H]. Qed.

Lemma for_list_app {A S} (l1 l2 : list A) (body : A -> S -> Worker S) :
  forall acc,
    for_list (l1 ++ l2) body acc
    = bind (for_list l1 body acc) (for_list l2 body).
Proof.
  induction l1 as [|x l1 IH]; intros acc; simpl.
  - now rewrite bind_ret.
  - rewrite bind_assoc. apply bind_ext. exact IH.
Qed.

(** A unit computation that does not raise returns [tt]. *)
Lemma returns_tt (m : Worker unit) : (forall e, snd m <> inl e) -> snd m = inr tt.
Proof. destruct m as [tr [e|[]]]; simpl; [intros H; now elim (H e)|reflexivity]. Qed.

(** ** Traces *)

Lemma pushed_app tr1 tr2 : pushed (tr1 ++ tr2) = pushed tr1 ++ pushed tr2.
Proof.
  induction tr1 as [|[] tr1 IH]; simpl; rewrite ?IH; reflexivity.
Qed.

Lemma signals_app tr1 tr2 : signals (tr1 ++ tr2) = signals tr1 ++ signals tr2.
Proof.
  induction tr1 as [|[] tr1 IH]; simpl; rewrite ?IH; reflexivity.
Qed.

Lemma gate_writes_app tr1 tr2 :
  gate_writes (tr1 ++ tr2) = gate_writes tr1 ++ gate_writes tr2.
Proof.
  induction tr1 as [|[] tr1 IH]; simpl; rewrite ?IH; reflexivity.
Qed.

Lemma text_put_leaves_gate ef : text_put ef -> leaves_gate ef.
Proof. intros [txt ->]. exact I. Qed.

Lemma text_puts_pushed tr :
  Forall text_put tr ->
  exists txts, pushed tr = map Some txts /\ signals tr = []
               /\ tr = map (fun t => PutMessage (Some t)) txts.
Proof.
  induction 1 as [|ef tr [txt ->] _ [txts [Hp [Hs Ht]]]].
  - exists []. repeat split.
  - exists (txt :: txts). simpl. now rewrite Hp, Hs, Ht.
Qed.

Lemma leaves_gate_writes tr : Forall leaves_gate tr -> gate_writes tr = [].
Proof.
  induction 1 as [|[] tr Hef _ IH]; simpl; try assumption; try reflexivity.
  destruct Hef.
Qed.

Lemma bind_Forall {A B} (P : effect -> Prop) (m : Worker A)
  (f : A -> Worker B) :
  Forall P (fst m) ->
  (forall a, snd m = inr a -> Forall P (fst (f a))) ->
  Forall P (fst (bind m f)).
Proof.
  intros Hm Hf. unfold bind. destruct (snd m) as [e|a] eqn:E; simpl.
  - exact Hm.
  - apply Forall_app. split; [exact Hm | now apply Hf].
Qed.

Lemma try_except_Forall {A} (P : effect -> Prop) (m : Worker A)
  (h : exn -> Worker A) :
  Forall P (fst m) -> (forall e, Forall P (fst (h e))) ->
  Forall P (fst (try_except m h)).
Proof.
  intros Hm Hh. unfold try_except. destruct (snd m) as [e|a]; simpl.
  - apply Forall_app. split; [exact Hm | apply Hh].
  - exact Hm.
Qed.

Lemma for_list_Forall {A S} (P : effect -> Prop) (l : list A)
  (body : A -> S -> Worker S) :
  (forall x acc, In x l -> Forall P (fst (body x acc))) ->
  forall acc, Forall P (fst (for_list l body acc)).
Proof.
  induction l as [|x l IH]; intros Hbody acc; simpl.
  - constructor.
  - apply bind_Forall.
    + apply Hbody. now left.
    + intros a _. apply IH. intros y acc' Hy. apply Hbody. now right.
Qed.

Lemma for_list_returns {A S} (l : list A) (body : A -> S -> Worker S) :
  (forall x acc, In x l -> exists a, snd (body x acc) = inr a) ->
  forall acc, exists a, snd (for_list l body acc) = inr a.
Proof.
  induction l as [|x l IH]; intros Hbody acc; simpl.
  - now exists acc.
  - destruct (Hbody x acc (or_introl eq_refl)) as [a Ha].
    rewrite (bind_ok _ _ a Ha). simpl.
    apply IH. intros y acc' Hy. apply Hbody. now right.
Qed.

(** ** Replaying a trace on the shared state *)

Lemma replay_message_queue tr : forall self,
  message_queue (fold_left apply_effect tr self)
  = message_queue self ++ pushed tr.
Proof.
  induction tr as [|[] tr IH]; intros self; simpl; rewrite ?IH; simpl;
    rewrite <- ?app_assoc, ?app_nil_r; reflexivity.
Qed.

Lemma replay_done_queue tr : forall self,
  done_queue (fold_left apply_effect tr self) = done_queue self ++ signals tr.
Proof.
  induction tr as [|[] tr IH]; intros self; simpl; rewrite ?IH; simpl;
    rewrite <- ?app_assoc, ?app_nil_r; reflexivity.
Qed.

Lemma last_cons_default {A} (l : list A) : forall x d d',
  last (x :: l) d = last (x :: l) d'.
Proof.
  induction l as [|y l IH]; intros x d d'; [reflexivity|].
  change (last (y :: l) d = last (y :: l) d'). apply IH.
Qed.

Lemma replay_is_processing tr : forall self,
  is_processing (fold_left apply_effect tr self)
  = last (gate_writes tr) (is_processing self).
Proof.
  induction tr as [|[] tr IH]; intros self; cbn [fold_left gate_writes];
    rewrite ?IH; try reflexivity.
  cbn [apply_effect with_is_processing is_processing].
  destruct (gate_writes tr) as [|y l]; [reflexivity|].
  change (last (y :: l) b = last (y :: l) (is_processing self)).
  apply last_cons_default.
Qed.

(** ** The workers *)

Lemma append_assoc_str (a b c : string) : (a +:+ b) +:+ c = a +:+ (b +:+ c).
Proof. induction a as [|ch a IH]; simpl; [|rewrite IH]; reflexivity. Qed.

Lemma append_empty_r (a : string) : a +:+ "" = a.
Proof. induction a as [|ch a IH]; simpl; [|rewrite IH]; reflexivity. Qed.

Lemma joined_app (a b : list string) : joined (a ++ b) = joined a +:+ joined b.
Proof.
  induction a as [|x a IH]; simpl; [reflexivity|].
  now rewrite IH, append_assoc_str.
Qed.

Lemma blocks_loop blocks : forall ar,
  for_list blocks on_block ar
  = (map put_text
       (map text_value (filter (fun b => block_type b =? "text") blocks)),
     inr (ar +:+ joined
            (map text_value
               (filter (fun b => block_type b =? "text") blocks)))).
Proof.
  induction blocks as [|b blocks IH]; intros ar; cbn [for_list filter].
  - unfold ret. simpl. now rewrite append_empty_r.
  - unfold on_block. destruct (block_type b =? "text").
    + unfold message_queue_put. rewrite bind_emit. unfold ret; cbn [fst snd].
      rewrite (bind_ok (_, inr (ar +:+ text_value b)) _ _ eq_refl).
      cbn [fst snd]. rewrite IH. cbn [fst snd map joined fold_right].
      now rewrite append_assoc_str.
    + rewrite bind_ret. apply IH.
Qed.

Section WorkerProperties.

Variable client : OpenAI.
Variable ASSISTANT_ID : string.
Variable user_message : string.
Variable update : Update.

Local Abbreviation on_ev := (on_event client user_message update).
Local Abbreviation follow_up := (stream_follow_up client user_message).
Local Abbreviation follow_up_try := (stream_follow_up_try client user_message).

Lemma follow_up_chunk_text_puts chunk :
  Forall text_put (fst (follow_up_chunk chunk tt)).
Proof.
  unfold follow_up_chunk, first_choice.
  destruct (choices chunk) as [|[[txt|]] cs]; [constructor| |];
    rewrite bind_ret; simpl; [|constructor].
  destruct (truthy txt); simpl; repeat constructor. now exists txt.
Qed.

Lemma follow_up_chunk_ok chunk :
  has_choice chunk ->
  follow_up_chunk chunk tt = (map put_text (chunk_text chunk), inr tt).
Proof.
  unfold has_choice, follow_up_chunk, first_choice, chunk_text.
  destruct (choices chunk) as [|[[txt|]] cs]; try congruence; intros _;
    rewrite bind_ret; simpl; [|reflexivity].
  destruct (truthy txt); reflexivity.
Qed.

Lemma follow_up_loop_ok chunks :
  Forall has_choice chunks ->
  for_list chunks follow_up_chunk tt
  = (map put_text (flat_map chunk_text chunks), inr tt).
Proof.
  induction 1 as [|chunk chunks Hc _ IH]; simpl; [reflexivity|].
  rewrite (follow_up_chunk_ok _ Hc).
  unfold bind; cbn [fst snd]. rewrite IH; cbn [fst snd].
  now rewrite map_app.
Qed.

(** The [try] block of the follow-up worker announces the section and then
    pushes text only. *)
Lemma stream_follow_up_try_trace ar :
  exists txts,
    fst (follow_up_try ar)
    = put_text follow_up_separator :: map put_text txts.
Proof.
  unfold stream_follow_up_try, message_queue_put.
  rewrite bind_emit. simpl.
  match goal with |- context [bind ?m ?f] =>
    assert (H : Forall text_put (fst (bind m f))) end.
  { apply bind_Forall.
    - unfold call. destruct (chat_completions_create _ _); constructor.
    - intros st _. unfold for_stream. apply bind_Forall.
      + apply for_list_Forall. intros chunk [] _.
        apply follow_up_chunk_text_puts.
      + intros [] _. destruct (failure st); constructor. }
  destruct (text_puts_pushed _ H) as [txts [_ [_ Htr]]].
  exists txts. now rewrite Htr.
Qed.

Lemma stream_follow_up_returns ar : snd (follow_up ar) = inr tt.
Proof.
  unfold stream_follow_up, try_except.
  destruct (snd (stream_follow_up_try _ _ _)) as [e|[]] eqn:E;
    [reflexivity | exact E].
Qed.

Lemma stream_follow_up_failed ar e :
  snd (follow_up_try ar) = inl e ->
  fst (follow_up ar)
  = fst (follow_up_try ar)
    ++ [ LogError (follow_up_error_log e);
         put_text (follow_up_error_message e) ].
Proof.
  unfold stream_follow_up, try_except.
  intros H. now rewrite H.
Qed.

Lemma stream_follow_up_succeeded ar st :
  chat_completions_create client (follow_up_request user_message ar) = inr st ->
  failure st = None ->
  Forall has_choice (items st) ->
  fst (follow_up ar)
  = put_text follow_up_separator
    :: map put_text (flat_map chunk_text (items st)).
Proof.
  intros Hcall Hend Hch.
  unfold stream_follow_up, stream_follow_up_try, message_queue_put.
  rewrite bind_emit, Hcall. unfold call. rewrite bind_ret.
  unfold for_stream. rewrite (follow_up_loop_ok _ Hch), Hend.
  unfold bind, ret, try_except; cbn [fst snd]. now rewrite app_nil_r.
Qed.

Lemma stream_follow_up_leaves_gate ar :
  Forall leaves_gate (fst (follow_up ar)).
Proof.
  destruct (stream_follow_up_try_trace ar) as [txts Htr].
  unfold stream_follow_up.
  apply try_except_Forall.
  - rewrite Htr. constructor; [exact I|].
    apply Forall_forall. intros ef Hef. apply in_map_iff in Hef.
    destruct Hef as [t [<- _]]. exact I.
  - intros e. repeat constructor.
Qed.

Lemma on_block_text_puts block ar :
  Forall text_put (fst (on_block block ar))
  /\ exists ar', snd (on_block block ar) = inr ar'.
Proof.
  unfold on_block. destruct (block_type block =? "text"); simpl.
  - split; [repeat constructor; now eexists | eauto].
  - split; [constructor | eauto].
Qed.

(** Before the completion event the loop pushes text only, and goes on. *)
Lemma on_event_before_completion ev ar :
  not_completed ev ->
  Forall text_put (fst (on_ev ev ar))
  /\ exists ar', snd (on_ev ev ar) = inr ar'.
Proof.
  intros Hev. unfold on_event.
  destruct (event ev =? "thread.message.delta").
  - destruct (data_delta ev) as [[[[|b bs]|]]|];
      try (split; [constructor | eexists; reflexivity]).
    split.
    + apply for_list_Forall. intros x acc _. apply on_block_text_puts.
    + apply for_list_returns. intros x acc _. apply on_block_text_puts.
  - destruct (String.eqb_spec (event ev) "thread.message.completed") as [E|E].
    + now elim Hev.
    + simpl. split; [constructor | eauto].
Qed.

Lemma on_event_completed ev ar :
  event ev = "thread.message.completed" ->
  on_ev ev ar
  = (fst (follow_up ar) ++ [PutMessage None; PutDone update], inr ar).
Proof.
  intros Hev. unfold on_event. rewrite Hev. simpl.
  reflexivity.
Qed.

Lemma on_event_ignored ev ar : ignored ev -> on_ev ev ar = ret ar.
Proof.
  intros [Hd Hc]. unfold on_event.
  apply String.eqb_neq in Hd, Hc. now rewrite Hd, Hc.
Qed.

Lemma on_event_leaves_gate ev ar : Forall leaves_gate (fst (on_ev ev ar)).
Proof.
  destruct (String.eqb_spec (event ev) "thread.message.completed") as [E|E].
  - rewrite (on_event_completed _ _ E). simpl. apply Forall_app. split.
    + apply stream_follow_up_leaves_gate.
    + repeat constructor.
  - eapply Forall_impl; [apply text_put_leaves_gate|].
    now apply on_event_before_completion.
Qed.

Lemma loop_before_completion evs : forall ar,
  Forall not_completed evs ->
  exists txts ar',
    for_list evs on_ev ar = (map put_text txts, inr ar').
Proof.
  intros ar Hevs.
  assert (Htr : Forall text_put (fst (for_list evs on_ev ar))).
  { apply for_list_Forall. intros ev acc Hin.
    apply on_event_before_completion.
    rewrite Forall_forall in Hevs. now apply Hevs. }
  assert (Hret : exists ar', snd (for_list evs on_ev ar) = inr ar').
  { apply for_list_returns. intros ev acc Hin.
    apply on_event_before_completion.
    rewrite Forall_forall in Hevs. now apply Hevs. }
  destruct (text_puts_pushed _ Htr) as [txts [_ [_ Ht]]].
  destruct Hret as [ar' Har'].
  exists txts, ar'. destruct (for_list evs on_ev ar); simpl in *.
  now subst.
Qed.

Lemma loop_ignored evs : forall ar,
  Forall ignored evs -> for_list evs on_ev ar = ret ar.
Proof.
  induction evs as [|ev evs IH]; intros ar Hevs; simpl; [reflexivity|].
  inversion Hevs as [|? ? Hev Hrest]; subst.
  rewrite (on_event_ignored _ _ Hev), bind_ret. now apply IH.
Qed.

Lemma on_event_texts ev ar :
  is_completed ev = false ->
  on_ev ev ar
  = (map put_text (event_texts ev), inr (ar +:+ joined (event_texts ev))).
Proof.
  unfold is_completed, on_event, event_texts. intros Hc.
  destruct (event ev =? "thread.message.delta").
  - destruct (data_delta ev) as [[[[|b bs]|]]|];
      try (unfold ret; simpl; now rewrite append_empty_r).
    apply blocks_loop.
  - rewrite Hc. unfold ret; simpl. now rewrite append_empty_r.
Qed.

Lemma loop_texts evs : forall ar,
  forallb (fun ev => negb (is_completed ev)) evs = true ->
  for_list evs on_ev ar
  = (map put_text (flat_map event_texts evs),
     inr (ar +:+ joined (flat_map event_texts evs))).
Proof.
  induction evs as [|ev evs IH]; intros ar H; cbn [for_list flat_map].
  - unfold ret. simpl. now rewrite append_empty_r.
  - simpl in H. apply andb_true_iff in H. destruct H as [Hev Hevs].
    apply negb_true_iff in Hev.
    rewrite (on_event_texts _ _ Hev).
    rewrite (bind_ok (_, inr (ar +:+ joined (event_texts ev))) _ _ eq_refl).
    cbn [fst snd]. rewrite (IH _ Hevs). cbn [fst snd].
    now rewrite map_app, joined_app, append_assoc_str.
Qed.

End WorkerProperties.

Section StreamEventsShape.

Variable client : OpenAI.
Variable ASSISTANT_ID : string.
Variable user_message : string.
Variable update : Update.

Local Abbreviation on_ev := (on_event client user_message update).
Local Abbreviation follow_up := (stream_follow_up client user_message).
Local Abbreviation primary :=
  (create_and_run client ASSISTANT_ID (thread_messages user_message)).
Local Abbreviation try_block :=
  (stream_events_try client ASSISTANT_ID user_message update).
Local Abbreviation guarded :=
  (stream_events_guarded client ASSISTANT_ID user_message update).
Local Abbreviation worker :=
  (stream_events client ASSISTANT_ID user_message update).

(** [stream_events] is its guarded body between the two gate writes. *)
Lemma stream_events_frame :
  worker = (SetIsProcessing true :: fst guarded ++ [SetIsProcessing false],
            snd guarded).
Proof. reflexivity. Qed.

Lemma stream_events_guarded_returns : snd guarded = inr tt.
Proof.
  unfold stream_events_guarded, try_except.
  destruct (snd try_block) as [e|[]] eqn:E; [reflexivity | exact E].
Qed.

Lemma stream_events_try_started st :
  primary = inr st ->
  try_block
  = bind (message_queue_put (Some (answers_separator user_message)))
      (fun _ => bind (for_stream st on_ev "") (fun _ => ret tt)).
Proof.
  intros H. unfold stream_events_try. rewrite H. unfold call.
  now rewrite bind_ret.
Qed.

Lemma stream_events_guarded_leaves_gate : Forall leaves_gate (fst guarded).
Proof.
  unfold stream_events_guarded. apply try_except_Forall.
  - unfold stream_events_try. apply bind_Forall.
    + unfold call. destruct primary; constructor.
    + intros st _. apply bind_Forall; [repeat constructor|].
      intros _ _. apply bind_Forall; [|intros; constructor].
      unfold for_stream. apply bind_Forall.
      * apply for_list_Forall. intros ev acc _. apply on_event_leaves_gate.
      * intros acc _. destruct (failure st); constructor.
  - intros e. repeat constructor.
Qed.

(** The call itself raises: only the error chunk is pushed. *)
Lemma stream_events_setup_failed e :
  primary = inl e ->
  fst guarded = [LogError (error_message e); put_text (error_message e)].
Proof.
  intros H. unfold stream_events_guarded, stream_events_try.
  rewrite H. reflexivity.
Qed.

(** The stream raises before any completion event. *)
Lemma stream_events_iteration_failed st e :
  primary = inr st -> failure st = Some e ->
  Forall not_completed (items st) ->
  exists txts,
    fst guarded
    = put_text (answers_separator user_message)
      :: map put_text txts
         ++ [LogError (error_message e); put_text (error_message e)].
Proof.
  intros Hcall Hend Hevs.
  destruct (loop_before_completion client user_message update _ "" Hevs)
    as [txts [ar Hloop]].
  exists txts. unfold stream_events_guarded.
  rewrite (stream_events_try_started _ Hcall).
  unfold for_stream. rewrite Hloop, Hend.
  unfold try_except, bind, raise, message_queue_put, logger_error, emit;
    cbn [fst snd]. cbn [app]. now rewrite app_nil_r.
Qed.

(** One completion event, nothing of interest after it, and a stream that
    ends by exhaustion: the trace of the events before the completion, the
    follow-up run on the text accumulated so far, the sentinel, the signal. *)
Lemma stream_events_one_completion st pre done_ev post tr ar :
  primary = inr st -> failure st = None ->
  items st = pre ++ done_ev :: post ->
  event done_ev = "thread.message.completed" ->
  Forall ignored post ->
  for_list pre on_ev "" = (tr, inr ar) ->
  fst guarded
  = put_text (answers_separator user_message)
    :: tr ++ fst (follow_up ar) ++ [PutMessage None; PutDone update].
Proof.
  intros Hcall Hend Hitems Hdone Hpost Hloop.
  unfold stream_events_guarded.
  rewrite (stream_events_try_started _ Hcall).
  unfold for_stream. rewrite Hend, Hitems, for_list_app, Hloop.
  rewrite (bind_ok (tr, inr ar) _ ar eq_refl).
  cbn [for_list fst snd]. rewrite (on_event_completed _ _ _ _ _ Hdone).
  rewrite (bind_ok (_, inr ar) _ ar eq_refl). cbn [fst snd].
  rewrite (loop_ignored client user_message update _ _ Hpost).
  unfold try_except, bind, ret, message_queue_put, emit; cbn [fst snd app].
  rewrite !app_nil_r. reflexivity.
Qed.

End StreamEventsShape.

Lemma pushed_texts txts : pushed (map put_text txts) = map Some txts.
Proof. induction txts as [|t txts IH]; simpl; [|rewrite IH]; reflexivity. Qed.

Lemma signals_texts txts : signals (map put_text txts) = [].
Proof. induction txts as [|t txts IH]; simpl; [|rewrite IH]; reflexivity. Qed.

Lemma replies_after_worker {A} (m : Worker A) (w : World) :
  replies (check_done_queue (with_bot (run_worker m (bot w)) w))
  = replies (check_done_queue w) ++ map (fun u => (u, "Done")) (signals (fst m)).
Proof.
  unfold check_done_queue, run_worker; simpl.
  now rewrite replay_done_queue, map_app, app_assoc.
Qed.

Lemma not_completed_forallb evs :
  Forall not_completed evs ->
  forallb (fun ev => negb (is_completed ev)) evs = true.
Proof.
  induction 1 as [|ev evs Hev _ IH]; [reflexivity|].
  cbn [forallb]. rewrite IH, andb_true_r. apply negb_true_iff.
  unfold is_completed. now apply String.eqb_neq.
Qed.

Lemma no_sentinel_in_texts txts : filter is_sentinel (map Some txts) = [].
Proof. induction txts as [|t txts IH]; [reflexivity | exact IH]. Qed.

(** ** The notifier when a reply can fail *)

(** A run of the loop tells a prefix of the queue "Done", in order; it
    returns when the queue is exhausted, and otherwise stops at the first
    reply that raises, whose signal is off the queue by then. *)
Lemma notify_split (telegram : Telegram) q : forall w,
  exists sent lost rest,
    q = sent ++ lost ++ rest
    /\ fst (notify telegram q w)
       = {| bot := with_done_queue rest (bot w);
            replies := replies w ++ done_replies sent;
            workers := workers w;
            gui_threads := gui_threads w |}
    /\ Forall (fun u => telegram u "Done" = None) sent
    /\ match snd (notify telegram q w) with
       | None => lost = [] /\ rest = []
       | Some e => exists u, lost = [u] /\ telegram u "Done" = Some e
       end.
Proof.
  induction q as [|u q IH]; intros w; cbn [notify].
  - exists [], [], []. unfold with_bot, done_replies. cbn [fst snd map].
    rewrite (app_nil_r (replies w)). repeat split. constructor.
  - unfold send_done_message, reply_text_via.
    destruct (telegram u "Done") as [e|] eqn:Hu.
    + exists [], [u], q. unfold with_bot, done_replies.
      cbn [fst snd map app bot]. rewrite (app_nil_r (replies w)).
      repeat split; [constructor | now exists u].
    + destruct (IH (reply_text u "Done"
                      (with_bot (with_done_queue q (bot w)) w)))
        as [sent [lost [rest [Hq [Hfst [Hsent Hsnd]]]]]].
      exists (u :: sent), lost, rest. rewrite Hfst.
      unfold reply_text, with_bot, done_replies;
        cbn [bot replies workers gui_threads map].
      rewrite <- app_assoc. cbn [app].
      repeat split; [now rewrite Hq | now constructor | exact Hsnd].
Qed.

(** When every reply goes through, a run of the notifier is
    [check_done_queue] as the process above has it. *)
Lemma check_done_queue_via_delivers (telegram : Telegram) (w : World) :
  Forall (fun u => telegram u "Done" = None) (done_queue (bot w)) ->
  check_done_queue_via telegram w = (check_done_queue w, None).
Proof.
  unfold check_done_queue_via, check_done_queue.
  generalize (done_queue (bot w)) as q. intros q. revert w.
  induction q as [|u q IH]; intros w Hq; cbn [notify].
  - unfold with_bot. cbn [map]. now rewrite app_nil_r.
  - inversion Hq as [|? ? Hu Hrest]; subst.
    unfold send_done_message, reply_text_via. rewrite Hu.
    rewrite (IH _ Hrest).
    unfold reply_text, with_bot; cbn [bot replies workers gui_threads map].
    now rewrite <- app_assoc.
Qed.

(** ** Claims about the stream worker *)

(** C5: whatever the two completion calls do, [stream_events] returns
    normally, writes the gate twice, [True] as its first write and [False] as
    its last, with no gate write in between, so the gate is released exactly
    once and is free after any run. *)
Theorem gate_released_on_every_exit (client : OpenAI)
  (ASSISTANT_ID user_message : string) (update : Update) :
  let worker := stream_events client ASSISTANT_ID user_message update in
  let guarded :=
    stream_events_guarded client ASSISTANT_ID user_message update in
  snd worker = inr tt
  /\ fst worker
     = SetIsProcessing true :: fst guarded ++ [SetIsProcessing false]
  /\ gate_writes (fst guarded) = []
  /\ gate_writes (fst worker) = [true; false]
  /\ forall self, is_processing (run_worker worker self) = false.
Proof.
  intros worker guarded.
  assert (Hq : gate_writes (fst guarded) = []).
  { apply leaves_gate_writes, stream_events_guarded_leaves_gate. }
  assert (Hw : gate_writes (fst worker) = [true; false]).
  { unfold worker. rewrite stream_events_frame. cbn [fst gate_writes].
    fold guarded. now rewrite gate_writes_app, Hq. }
  repeat split; try assumption.
  - unfold worker. rewrite stream_events_frame.
    apply stream_events_guarded_returns.
  - intros self. unfold run_worker.
    now rewrite replay_is_processing, Hw.
Qed.

(** C3, as stated, fails: when the stream raises after a completion event,
    the end-of-stream marker and the completion signal are already queued
    when the error chunk is pushed. *)
Lemma signal_sent_before_late_failure :
  let worker := stream_events fails_after_completion "asst" "q" alice in
  pushed (fst worker)
  = [ Some (answers_separator "q"); Some follow_up_separator; None;
      Some (error_message "connection reset") ]
  /\ signals (fst worker) = [alice].
Proof. split; reflexivity. Qed.

(** C3 (amended): when the primary call raises, or its stream raises before
    it has yielded a "thread.message.completed" event, the worker pushes
    text chunks and then the error chunk "An error occurred: <e>" as its last
    message, pushes no end-of-stream marker, enqueues no completion signal,
    and the notifier sends no "Done" for the request. *)
Theorem no_signal_on_primary_error (client : OpenAI)
  (ASSISTANT_ID user_message : string) (update : Update) (e : exn) :
  let worker := stream_events client ASSISTANT_ID user_message update in
  create_and_run client ASSISTANT_ID (thread_messages user_message) = inl e
  \/ (exists st,
        create_and_run client ASSISTANT_ID (thread_messages user_message)
        = inr st
        /\ failure st = Some e
        /\ Forall not_completed (items st)) ->
  (exists txts, pushed (fst worker) = map Some txts ++ [Some (error_message e)])
  /\ ~ In None (pushed (fst worker))
  /\ signals (fst worker) = []
  /\ snd worker = inr tt
  /\ forall w,
       replies (check_done_queue (with_bot (run_worker worker (bot w)) w))
       = replies (check_done_queue w).
Proof.
  intros worker H.
  assert (Hshape : exists txts,
            fst (stream_events_guarded client ASSISTANT_ID user_message update)
            = map put_text txts
              ++ [LogError (error_message e); put_text (error_message e)]).
  { destruct H as [H | [st [Hcall [Hend Hevs]]]].
    - exists []. now apply stream_events_setup_failed.
    - destruct (stream_events_iteration_failed client ASSISTANT_ID
                  user_message update st e Hcall Hend Hevs)
        as [txts Htr].
      exists (answers_separator user_message :: txts). exact Htr. }
  destruct Hshape as [txts Htr].
  assert (Hp : pushed (fst worker) = map Some txts ++ [Some (error_message e)]).
  { unfold worker. rewrite stream_events_frame. cbn [fst pushed].
    rewrite Htr, !pushed_app, pushed_texts. simpl. now rewrite app_nil_r. }
  assert (Hs : signals (fst worker) = []).
  { unfold worker. rewrite stream_events_frame. cbn [fst signals].
    now rewrite Htr, !signals_app, signals_texts. }
  repeat split.
  - now exists txts.
  - rewrite Hp. intros Hin. apply in_app_or in Hin.
    destruct Hin as [Hin | [Hin | []]]; [|discriminate].
    apply in_map_iff in Hin. destruct Hin as [t [Ht _]]. discriminate.
  - exact Hs.
  - unfold worker. rewrite stream_events_frame.
    apply stream_events_guarded_returns.
  - intros w. rewrite replies_after_worker, Hs. simpl. now rewrite app_nil_r.
Qed.

Lemma no_signal_on_primary_error_witness :
  signals (fst (stream_events fails_mid_stream "asst" "q" alice)) = [].
Proof.
  apply (no_signal_on_primary_error fails_mid_stream "asst" "q" alice
           "connection reset").
  right. exists {| items := [delta_event "The"];
                   failure := Some "connection reset" |}.
  repeat split. repeat constructor. discriminate.
Defined.

(** C2: with the primary deltas "The", " answer", " is 42", then the
    completion event, and a follow-up call that streams to its end, the
    messages pushed are, in this order: the primary separator, the three
    texts, the follow-up separator, the non-empty follow-up texts in stream
    order, and last the end-of-stream marker; one completion signal is
    enqueued. *)
Theorem order_preserved (client : OpenAI) (ASSISTANT_ID user_message : string)
  (update : Update) (response : Stream Chunk) :
  let worker := stream_events client ASSISTANT_ID user_message update in
  create_and_run client ASSISTANT_ID (thread_messages user_message)
  = inr {| items := [ delta_event "The"; delta_event " answer";
                      delta_event " is 42"; completed_event ];
           failure := None |} ->
  chat_completions_create client
    (follow_up_request user_message "The answer is 42") = inr response ->
  failure response = None ->
  Forall has_choice (items response) ->
  pushed (fst worker)
  = [ Some (answers_separator user_message);
      Some "The"; Some " answer"; Some " is 42";
      Some follow_up_separator ]
    ++ map Some (flat_map chunk_text (items response))
    ++ [None]
  /\ signals (fst worker) = [update]
  /\ forall self,
       message_queue (run_worker worker self)
       = message_queue self
         ++ [ Some (answers_separator user_message);
              Some "The"; Some " answer"; Some " is 42";
              Some follow_up_separator ]
         ++ map Some (flat_map chunk_text (items response))
         ++ [None].
Proof.
  intros worker Hfirst Hsecond Hend Hchoices.
  assert (Htr : fst worker
    = SetIsProcessing true
      :: (put_text (answers_separator user_message)
          :: map put_text ["The"; " answer"; " is 42"]
             ++ (put_text follow_up_separator
                 :: map put_text (flat_map chunk_text (items response)))
             ++ [PutMessage None; PutDone update])
      ++ [SetIsProcessing false]).
  { unfold worker. rewrite stream_events_frame. cbn [fst]. do 2 f_equal.
    rewrite <- (stream_follow_up_succeeded client user_message
                  "The answer is 42" response Hsecond Hend Hchoices).
    eapply stream_events_one_completion
      with (pre := [delta_event "The"; delta_event " answer";
                    delta_event " is 42"])
           (done_ev := completed_event) (post := []);
      try exact Hfirst; try apply Forall_nil; reflexivity. }
  assert (Hp : pushed (fst worker)
    = [ Some (answers_separator user_message);
        Some "The"; Some " answer"; Some " is 42";
        Some follow_up_separator ]
      ++ map Some (flat_map chunk_text (items response)) ++ [None]).
  { rewrite Htr. cbn [pushed app map put_text].
    rewrite !pushed_app. cbn [pushed]. fold put_text.
    now rewrite pushed_texts, app_nil_r. }
  repeat split.
  - exact Hp.
  - rewrite Htr. cbn [signals app map put_text].
    rewrite !signals_app. cbn [signals]. fold put_text.
    now rewrite signals_texts.
  - intros self. unfold run_worker. now rewrite replay_message_queue, Hp.
Qed.

Lemma order_preserved_witness :
  pushed (fst (stream_events answers_42 "asst" "q" alice))
  = [ Some (answers_separator "q");
      Some "The"; Some " answer"; Some " is 42";
      Some follow_up_separator ]
    ++ map Some ["Why 42?"; " Because."]
    ++ [None].
Proof.
  apply (order_preserved answers_42 "asst" "q" alice
           {| items := [ text_chunk "Why 42?"; text_chunk "";
                         text_chunk " Because." ];
              failure := None |}).
  - reflexivity.
  - reflexivity.
  - reflexivity.
  - repeat constructor; discriminate.
Defined.

(** C4: when the [try] block of the follow-up worker raises on the answer
    accumulated by this run, the follow-up worker pushes its separator, the
    text streamed before the failure and one error chunk, and returns
    normally.  The stream worker then pushes the end-of-stream marker,
    enqueues the completion signal right behind it, releases the gate and
    returns normally: one marker, one signal.  The notifier then sends "Done"
    to the originator, provided that reply and those queued before it go
    through. *)
Theorem follow_up_failure_contained (client : OpenAI)
  (ASSISTANT_ID user_message : string) (update : Update)
  (st : Stream StreamEvent) (pre : list StreamEvent) (done_ev : StreamEvent)
  (post : list StreamEvent) (e : exn) :
  let worker := stream_events client ASSISTANT_ID user_message update in
  let answer := joined (flat_map event_texts pre) in
  let follow_up := stream_follow_up client user_message answer in
  create_and_run client ASSISTANT_ID (thread_messages user_message) = inr st ->
  failure st = None ->
  items st = pre ++ done_ev :: post ->
  event done_ev = "thread.message.completed" ->
  Forall not_completed pre ->
  Forall ignored post ->
  snd (stream_follow_up_try client user_message answer) = inl e ->
  snd follow_up = inr tt
  /\ (exists ftxts,
        fst follow_up
        = put_text follow_up_separator
          :: map put_text ftxts
             ++ [ LogError (follow_up_error_log e);
                  put_text (follow_up_error_message e) ]
        /\ fst worker
           = SetIsProcessing true
             :: put_text (answers_separator user_message)
             :: map put_text (flat_map event_texts pre)
                ++ put_text follow_up_separator
                   :: map put_text ftxts
                      ++ [ LogError (follow_up_error_log e);
                           put_text (follow_up_error_message e);
                           PutMessage None;
                           PutDone update;
                           SetIsProcessing false ])
  /\ snd worker = inr tt
  /\ filter is_sentinel (pushed (fst worker)) = [None]
  /\ signals (fst worker) = [update]
  /\ forall (telegram : Telegram) (w : World),
       Forall (fun u => telegram u "Done" = None)
         (done_queue (bot w) ++ [update]) ->
       check_done_queue_via telegram (with_bot (run_worker worker (bot w)) w)
       = ({| bot := with_done_queue [] (run_worker worker (bot w));
             replies := replies w
                        ++ done_replies (done_queue (bot w) ++ [update]);
             workers := workers w;
             gui_threads := gui_threads w |}, None).
Proof.
  intros worker answer follow_up Hcall Hend Hitems Hdone Hpre Hpost Hfails.
  pose proof (loop_texts client user_message update pre ""
                (not_completed_forallb pre Hpre)) as Hloop.
  cbn [append] in Hloop. fold answer in Hloop.
  destruct (stream_follow_up_try_trace client user_message answer)
    as [ftxts Hftry].
  assert (Hftr : fst follow_up
                 = put_text follow_up_separator
                   :: map put_text ftxts
                      ++ [ LogError (follow_up_error_log e);
                           put_text (follow_up_error_message e) ]).
  { unfold follow_up.
    now rewrite (stream_follow_up_failed _ _ _ _ Hfails), Hftry. }
  assert (Htr : fst worker
    = SetIsProcessing true
      :: put_text (answers_separator user_message)
      :: map put_text (flat_map event_texts pre)
         ++ put_text follow_up_separator
            :: map put_text ftxts
               ++ [ LogError (follow_up_error_log e);
                    put_text (follow_up_error_message e);
                    PutMessage None;
                    PutDone update;
                    SetIsProcessing false ]).
  { unfold worker. rewrite stream_events_frame. cbn [fst].
    rewrite (stream_events_one_completion client ASSISTANT_ID user_message
               update st pre done_ev post _ _ Hcall Hend Hitems Hdone Hpost
               Hloop).
    fold follow_up. rewrite Hftr. cbn [app]. do 2 f_equal.
    rewrite <- !app_assoc. cbn [app]. do 2 f_equal.
    now rewrite <- !app_assoc. }
  assert (Hs : signals (fst worker) = [update]).
  { rewrite Htr. cbn [signals put_text]. fold put_text.
    rewrite signals_app, signals_texts. cbn [app signals put_text].
    fold put_text. now rewrite signals_app, signals_texts. }
  split; [apply stream_follow_up_returns|].
  split; [exists ftxts; now split|].
  split; [unfold worker; rewrite stream_events_frame;
          apply stream_events_guarded_returns|].
  split; [|split; [exact Hs|]].
  - rewrite Htr. cbn [pushed put_text filter is_sentinel]. fold put_text.
    rewrite pushed_app, filter_app, pushed_texts, no_sentinel_in_texts.
    cbn [app pushed put_text filter is_sentinel]. fold put_text.
    now rewrite pushed_app, filter_app, pushed_texts, no_sentinel_in_texts.
  - intros telegram w Hgo.
    assert (Hq : done_queue (run_worker worker (bot w))
                 = done_queue (bot w) ++ [update]).
    { unfold run_worker. now rewrite replay_done_queue, Hs. }
    rewrite check_done_queue_via_delivers;
      [|cbn [bot with_bot]; now rewrite Hq].
    unfold check_done_queue, done_replies; cbn [bot with_bot replies workers
      gui_threads]. now rewrite Hq.
Qed.

Lemma follow_up_failure_contained_witness :
  signals (fst (stream_events refuses_42 "asst" "q" alice)) = [alice].
Proof.
  apply (follow_up_failure_contained refuses_42 "asst" "q" alice
           {| items := [ delta_event "4"; delta_event "2"; completed_event;
                         {| event := "thread.run.completed";
                            data_delta := None |} ];
              failure := None |}
           [delta_event "4"; delta_event "2"] completed_event
           [ {| event := "thread.run.completed"; data_delta := None |} ]
           "rate limited").
  - reflexivity.
  - reflexivity.
  - reflexivity.
  - reflexivity.
  - repeat constructor; discriminate.
  - repeat constructor; discriminate.
  - reflexivity.
Defined.

(** C9, as stated, fails: when the exception text of the follow-up call
    holds the words "Answers for", the error chunk is not shown as ordinary
    text but with the separator tag and scrolled into view. *)
Lemma follow_up_error_styled_as_separator :
  let msg := follow_up_error_message "no Answers for you" in
  pushed (fst (stream_follow_up refused_in_separator_words "q" "42"))
  = [Some follow_up_separator; Some msg]
  /\ text_display (update_gui (active_surface [Some msg]))
     = Some [ Configure "normal";
              Insert msg (Some "separator");
              See;
              Configure "disabled" ].
Proof. split; reflexivity. Qed.

(** C9 (amended): when the [try] block of the follow-up worker raises [e],
    the last message it pushes is
    "\nAn error occurred while generating follow-up: <e>\n".  That message
    starts with a newline, so [update_gui] does not take its error branch:
    the pass goes on behind it, and on a usable surface the widget receives
    the message itself, with no "ERROR:" prefix, as ordinary text when [e]
    holds neither separator phrase and with the separator tag when it
    does. *)
Theorem follow_up_error_shown_as_text (client : OpenAI)
  (user_message assistant_response : string) (e : exn)
  (q : list (option string)) (self : AssistantBot) (shown : list tkop) :
  let msg := follow_up_error_message e in
  snd (stream_follow_up_try client user_message assistant_response) = inl e ->
  text_display self = Some shown ->
  root_exists self = true ->
  (exists ftxts,
     pushed (fst (stream_follow_up client user_message assistant_response))
     = Some follow_up_separator :: map Some ftxts ++ [Some msg])
  /\ String.prefix error_prefix msg = false
  /\ separator_phrase msg = separator_phrase e
  /\ drain (Some msg :: q) self
     = drain q
         (with_text_display
            (Some (shown
                   ++ if separator_phrase e
                      then [ Configure "normal";
                             Insert msg (Some "separator");
                             See;
                             Configure "disabled" ]
                      else [ Configure "normal";
                             Insert msg None;
                             Configure "disabled" ]))
            (with_message_queue q self)).
Proof.
  intros msg Hfails Hshown Hex.
  assert (Hphrase : separator_phrase msg = separator_phrase e)
    by apply follow_up_error_message_phrase.
  split; [|split; [reflexivity | split; [exact Hphrase|]]].
  - destruct (stream_follow_up_try_trace client user_message
                assistant_response) as [ftxts Htr].
    exists ftxts.
    rewrite (stream_follow_up_failed _ _ _ _ Hfails), Htr.
    cbn [app pushed put_text]. fold put_text.
    now rewrite pushed_app, pushed_texts.
  - cbn [drain].
    change (String.prefix error_prefix msg) with false. cbv iota.
    f_equal. unfold root_exists in Hex.
    unfold show_text, widget_do, surface_usable;
      cbn [with_message_queue text_display root].
    rewrite Hshown.
    destruct (root self) as [[[] jobs]|]; try discriminate.
    fold (separator_phrase msg). rewrite Hphrase.
    now destruct (separator_phrase e).
Qed.

Lemma follow_up_error_shown_as_text_witness :
  drain [Some (follow_up_error_message "rate limited"); Some "next"]
    (active_surface [])
  = drain [Some "next"]
      (with_text_display
         (Some ([] ++ [ Configure "normal";
                        Insert (follow_up_error_message "rate limited") None;
                        Configure "disabled" ]))
         (with_message_queue [Some "next"] (active_surface []))).
Proof.
  apply (follow_up_error_shown_as_text follow_up_refused "q" "42"
           "rate limited" [Some "next"] (active_surface []) []);
    reflexivity.
Defined.

(** ** Claims about the dispatcher *)

Section Dispatcher.

Variable client : OpenAI.
Variable ASSISTANT_ID : string.

Ltac agree :=
  unfold reply_text, with_bot, with_workers, with_gui_threads;
  cbn [bot workers gui_threads replies];
  split; [|split]; congruence.

Lemma exec_same_but_replies (a : action) (w1 w2 : World) :
  same_but_replies w1 w2 ->
  same_but_replies (exec client ASSISTANT_ID w1 a)
                   (exec client ASSISTANT_ID w2 a).
Proof.
  intros [Hb [Hw Hg]]. unfold same_but_replies.
  destruct a as [u|i| | | |]; cbn [exec].
  - unfold handle_message. rewrite Hb.
    destruct (is_processing (bot w2)); [agree|].
    unfold start_streaming, reply_text, with_gui_threads, with_workers,
      with_bot; cbn [bot workers gui_threads replies].
    rewrite Hw, Hg. destruct (negb _); agree.
  - unfold worker_step, with_bot, with_workers;
      cbn [bot workers gui_threads replies]. rewrite Hb, Hw.
    agree.
  - unfold check_done_queue; cbn [bot workers gui_threads replies].
    rewrite Hb. agree.
  - rewrite Hg. destruct (gui_threads w2) eqn:E; [agree|].
    unfold with_bot, with_gui_threads; cbn [bot workers gui_threads replies].
    rewrite Hb. agree.
  - rewrite Hb. destruct (root (bot w2)) as [[[] [|j jobs]]|];
      unfold with_bot; cbn [bot workers gui_threads replies];
      rewrite ?Hb; agree.
  - unfold with_bot; cbn [bot workers gui_threads replies].
    rewrite Hb. agree.
Qed.

Lemma run_same_but_replies (schedule : list action) :
  forall w1 w2,
    same_but_replies w1 w2 ->
    same_but_replies (run client ASSISTANT_ID schedule w1)
                     (run client ASSISTANT_ID schedule w2).
Proof.
  induction schedule as [|a schedule IH]; intros w1 w2 H; simpl.
  - exact H.
  - apply IH. now apply exec_same_but_replies.
Qed.

(** C6: a text message that arrives while the gate is held is answered with
    the "still processing" reply and nothing else happens: no thread is
    started, the shared state and both channels are untouched, and whatever
    runs afterwards, the message queue and the worker threads are what they
    would have been had the message never arrived. *)
Theorem gate_held_rejection (update : Update) (w : World) :
  is_processing (bot w) = true ->
  handle_message client ASSISTANT_ID update w
  = reply_text update
      "I'm still processing the previous request. Please wait." w
  /\ replies (handle_message client ASSISTANT_ID update w)
     = replies w
       ++ [(update, "I'm still processing the previous request. Please wait.")]
  /\ bot (handle_message client ASSISTANT_ID update w) = bot w
  /\ workers (handle_message client ASSISTANT_ID update w) = workers w
  /\ gui_threads (handle_message client ASSISTANT_ID update w) = gui_threads w
  /\ forall schedule,
       message_queue
         (bot (run client ASSISTANT_ID schedule
                 (handle_message client ASSISTANT_ID update w)))
       = message_queue (bot (run client ASSISTANT_ID schedule w))
       /\ workers (run client ASSISTANT_ID schedule
                     (handle_message client ASSISTANT_ID update w))
          = workers (run client ASSISTANT_ID schedule w).
Proof.
  intros Hgate.
  assert (Heq : handle_message client ASSISTANT_ID update w
                = reply_text update
                    "I'm still processing the previous request. Please wait."
                    w).
  { unfold handle_message. now rewrite Hgate. }
  rewrite Heq. repeat split.
  - destruct (run_same_but_replies schedule
                (reply_text update
                   "I'm still processing the previous request. Please wait." w)
                w) as [Hb _]; [now repeat split|].
    now rewrite Hb.
  - destruct (run_same_but_replies schedule
                (reply_text update
                   "I'm still processing the previous request. Please wait." w)
                w) as [_ [Hw _]]; [now repeat split|].
    exact Hw.
Qed.

End Dispatcher.

(** The first request is in flight when the second message arrives. *)
Lemma gate_held_rejection_witness :
  replies (run answers_42 "asst"
             [Inbound alice; WorkerWrite 0; WorkerWrite 0; Inbound bob] boot)
  = [ (alice, "Processing your request...");
      (bob, "I'm still processing the previous request. Please wait.") ].
Proof.
  change (replies
            (handle_message answers_42 "asst" bob
               (run answers_42 "asst"
                  [Inbound alice; WorkerWrite 0; WorkerWrite 0] boot))
          = [ (alice, "Processing your request...");
              (bob, "I'm still processing the previous request. Please wait.")
            ]).
  rewrite (proj1 (proj2 (gate_held_rejection answers_42 "asst" bob
                           (run answers_42 "asst"
                              [Inbound alice; WorkerWrite 0; WorkerWrite 0]
                              boot)
                           eq_refl))).
  reflexivity.
Defined.

(** C1 fails on the code: the gate is taken by the worker thread's first
    statement, not by the dispatcher.  Two messages handled before the first
    thread has run that statement both pass the gate check, and the two
    workers then push into the message queue in turn. *)
Lemma two_workers_in_flight :
  let w := run answers_42 "asst"
             [ Inbound alice; Inbound bob;
               WorkerWrite 0; WorkerWrite 1;
               WorkerWrite 0; WorkerWrite 1;
               WorkerWrite 0; WorkerWrite 1 ] boot in
  in_flight_count w = 2
  /\ replies w = [ (alice, "Processing your request...");
                   (bob, "Processing your request...") ]
  /\ message_queue (bot w)
     = [ Some (answers_separator "What is the answer?");
         Some (answers_separator "And the question?");
         Some "The"; Some "The" ].
Proof. vm_compute. repeat split. Qed.

(** ** What the gate does achieve

    When every worker thread runs its first statement before the next
    message is handled, the flag is up exactly while a request is in flight,
    and no two requests ever are. *)

Lemma apply_effect_leaves_gate self ef :
  leaves_gate ef -> is_processing (apply_effect self ef) = is_processing self.
Proof. destruct ef; simpl; [intros []| | |]; reflexivity. Qed.

Lemma well_formed_in_flight t :
  well_formed t ->
  in_flight t = match todo t with [] => false | _ :: _ => true end.
Proof.
  unfold in_flight. intros [H | [Hm _]].
  - rewrite H. now destruct (made t).
  - destruct (made t); [congruence|reflexivity].
Qed.

Lemma advance_spec ts : forall i self,
  Forall well_formed ts ->
  Forall well_formed (fst (advance i ts self))
  /\ ((fst (advance i ts self) = ts /\ snd (advance i ts self) = self)
      \/ (in_flight_in (fst (advance i ts self)) = in_flight_in ts
          /\ is_processing (snd (advance i ts self)) = is_processing self)
      \/ (S (in_flight_in (fst (advance i ts self))) = in_flight_in ts
          /\ is_processing (snd (advance i ts self)) = false)).
Proof.
  induction ts as [|t ts IH]; intros i self Hwf.
  - destruct i; simpl; auto.
  - inversion Hwf as [|? ? Ht Hts]; subst. destruct i as [|i].
    + cbn [advance]. destruct (todo t) as [|ef rest] eqn:Htodo.
      * split; [exact Hwf | left; split; reflexivity].
      * destruct Ht as [Ht | [Hm [rest0 [Hrest0 Hgate]]]]; [congruence|].
        rewrite Htodo in Hrest0.
        assert (Hin : in_flight t = true).
        { rewrite well_formed_in_flight, Htodo; [reflexivity|].
          right. split; [exact Hm|]. exists rest0.
          split; [congruence | exact Hgate]. }
        destruct rest0 as [|ef0 rest0]; simpl in Hrest0;
          injection Hrest0 as -> ->.
        -- cbn [fst snd]. split.
           ++ constructor; [now left | exact Hts].
           ++ right; right. unfold in_flight_in. cbn [filter].
              rewrite Hin. unfold in_flight at 1. cbn [made todo].
              split; [|reflexivity]. now destruct (made t ++ _).
        -- inversion Hgate as [|? ? Hef Hrest]; subst.
           cbn [fst snd]. split.
           ++ constructor; [|exact Hts]. right. cbn [made todo]. split.
              ** now destruct (made t).
              ** now exists rest0.
           ++ right; left. unfold in_flight_in. cbn [filter].
              rewrite Hin. unfold in_flight at 1. cbn [made todo].
              split; [|now apply apply_effect_leaves_gate].
              destruct (made t ++ [ef0]) eqn:E;
                [now destruct (made t) | now destruct rest0].
    + cbn [advance fst snd]. destruct (IH i self Hts) as [Hwf' Hcases].
      split; [now constructor|].
      unfold in_flight_in in *. cbn [filter].
      destruct Hcases as [[H1 H2] | [[H1 H2] | [H1 H2]]].
      * left. now rewrite H1, H2.
      * right; left. split; [|exact H2].
        destruct (in_flight t); cbn [length]; now rewrite H1.
      * right; right. split; [|exact H2].
        destruct (in_flight t); cbn [length]; now rewrite <- H1.
Qed.

Lemma advance_last ts : forall t ef rest self,
  todo t = ef :: rest ->
  advance (length ts) (ts ++ [t]) self
  = (ts ++ [ {| made := made t ++ [ef]; todo := rest |} ],
     apply_effect self ef).
Proof.
  induction ts as [|t0 ts IH]; intros t ef rest self Htodo; simpl.
  - now rewrite Htodo.
  - now rewrite (IH t ef rest self Htodo).
Qed.

Lemma show_text_is_processing msg self :
  is_processing (show_text msg self) = is_processing self.
Proof.
  unfold show_text, widget_do.
  destruct (surface_usable self); [|reflexivity].
  destruct (_ || _); destruct (text_display self); reflexivity.
Qed.

Lemma show_error_is_processing msg self :
  is_processing (show_error msg self) = is_processing self.
Proof.
  unfold show_error, widget_do.
  destruct (surface_usable _); [|reflexivity].
  simpl. destruct (text_display self); reflexivity.
Qed.

Lemma drain_is_processing q : forall self,
  is_processing (drain q self) = is_processing self.
Proof.
  induction q as [|[msg|] q IH]; intros self; simpl; try reflexivity.
  destruct (String.prefix error_prefix msg).
  - now rewrite show_error_is_processing.
  - now rewrite IH, show_text_is_processing.
Qed.

Lemma update_gui_is_processing self :
  is_processing (update_gui self) = is_processing self.
Proof.
  unfold update_gui, reschedule.
  destruct (root (drain _ _)) as [[[] jobs]|]; simpl;
    apply drain_is_processing.
Qed.

Section Serialisation.

Variable client : OpenAI.
Variable ASSISTANT_ID : string.

Lemma exec_prompt_serialised (a : action) (w : World) :
  serialised w -> serialised (exec_prompt client ASSISTANT_ID w a).
Proof.
  intros [Hwf Hcount]. unfold serialised.
  destruct a as [u|i| | | |]; cbn [exec_prompt exec].
  - unfold handle_then_start, handle_message.
    destruct (is_processing (bot w)) eqn:Hgate.
    + cbn. now rewrite Hgate.
    + set (t := {| made := [];
                   todo := fst (stream_events client ASSISTANT_ID
                                  (text (message u)) u) |}).
      assert (Hstep : forall g r b,
        worker_step (length (workers w))
          {| bot := b; replies := r; workers := workers w ++ [t];
             gui_threads := g |}
        = {| bot := apply_effect b (SetIsProcessing true); replies := r;
             workers := workers w
               ++ [ {| made := [SetIsProcessing true];
                       todo := fst (stream_events_guarded client ASSISTANT_ID
                                      (text (message u)) u)
                               ++ [SetIsProcessing false] |} ];
             gui_threads := g |}).
      { intros g r b. unfold worker_step; cbn [bot workers].
        rewrite (advance_last (workers w) t (SetIsProcessing true)
                   (fst (stream_events_guarded client ASSISTANT_ID
                           (text (message u)) u)
                    ++ [SetIsProcessing false]) b eq_refl).
        reflexivity. }
      unfold start_streaming, reply_text, with_workers, with_bot,
        with_gui_threads; cbn [bot workers replies gui_threads].
      fold t. destruct (negb _); cbn [bot workers replies gui_threads];
        rewrite Hstep; cbn [bot workers is_processing apply_effect
                            with_is_processing];
        (split;
         [ apply Forall_app; split; [exact Hwf|];
           constructor; [|constructor]; right; cbn [made todo];
           split; [discriminate|];
           eexists; split; [reflexivity|];
           apply stream_events_guarded_leaves_gate
         | unfold in_flight_in in *; rewrite filter_app, length_app, Hcount;
           cbn [filter in_flight made todo];
           now destruct (fst (stream_events_guarded _ _ _ _)) ]).
  - unfold worker_step, with_bot, with_workers; cbn [bot workers].
    destruct (advance_spec (workers w) i (bot w) Hwf) as [Hwf' Hcases].
    split; [exact Hwf'|].
    destruct Hcases as [[H1 H2] | [[H1 H2] | [H1 H2]]].
    + now rewrite H1, H2.
    + now rewrite H1, H2.
    + rewrite H2. rewrite <- H1 in Hcount.
      destruct (is_processing (bot w)); [now injection Hcount|discriminate].
  - unfold check_done_queue; cbn [bot workers]. split; [exact Hwf|].
    exact Hcount.
  - destruct (gui_threads w); [now split|].
    unfold with_bot, with_gui_threads; cbn [bot workers].
    split; [exact Hwf|]. rewrite Hcount. unfold create_gui_open.
    destruct (negb _); [|reflexivity].
    now rewrite update_gui_is_processing.
  - destruct (root (bot w)) as [[[] [|j jobs]]|]; try (now split).
    unfold with_bot; cbn [bot workers]. split; [exact Hwf|].
    now rewrite update_gui_is_processing.
  - unfold with_bot; cbn [bot workers]. now split.
Qed.

(** X13: mutual exclusion under the schedule the source relies on.  When
    every thread started by the dispatcher runs its first statement before
    anything else is scheduled, then at every moment each thread has either
    returned or will release the gate with its last write, the flag is up
    exactly while one request is in flight, and at most one ever is. *)
Lemma gate_serialises_prompt_workers (schedule : list action) :
  serialised (run_prompt client ASSISTANT_ID schedule boot)
  /\ in_flight_count (run_prompt client ASSISTANT_ID schedule boot) <= 1.
Proof.
  assert (H : forall w, serialised w ->
                serialised (run_prompt client ASSISTANT_ID schedule w)).
  { induction schedule as [|a sch IH]; intros w Hw; simpl; [exact Hw|].
    apply IH. now apply exec_prompt_serialised. }
  assert (Hboot : serialised boot) by (split; [constructor | reflexivity]).
  specialize (H boot Hboot). split; [exact H|].
  destruct H as [_ Hc]. unfold in_flight_count. unfold in_flight_in in Hc.
  rewrite Hc. destruct (is_processing _); lia.
Qed.

End Serialisation.

(** * Further properties *)

(** ** Startup *)

(** X1: the bot starts exactly when the three environment variables are set
    and non-empty, and then starts with the gate free, no window and both
    queues empty; otherwise construction raises, naming the first one missing
    in the order API key, Telegram token, assistant id.  An empty value counts
    as missing. *)
Theorem init_needs_three_secrets (getenv : string -> option string) :
  match __init__ getenv with
  | inr (settings, self) =>
      getenv "OPENAI_API_KEY" = Some (api_key settings)
      /\ getenv "TELEGRAM_TOKEN" = Some (telegram_token settings)
      /\ getenv "ASSISTANT_ID" = Some (assistant_id settings)
      /\ truthy (api_key settings) = true
      /\ truthy (telegram_token settings) = true
      /\ truthy (assistant_id settings) = true
      /\ self = init
  | inl e =>
      (missing (getenv "OPENAI_API_KEY") = true /\ e = api_key_missing)
      \/ (missing (getenv "OPENAI_API_KEY") = false
          /\ missing (getenv "TELEGRAM_TOKEN") = true
          /\ e = telegram_token_missing)
      \/ (missing (getenv "OPENAI_API_KEY") = false
          /\ missing (getenv "TELEGRAM_TOKEN") = false
          /\ missing (getenv "ASSISTANT_ID") = true
          /\ e = assistant_id_missing)
  end.
Proof.
  unfold __init__, require, missing.
  destruct (getenv "OPENAI_API_KEY") as [k|]; [destruct (truthy k) eqn:Hk|];
    try (left; split; reflexivity).
  destruct (getenv "TELEGRAM_TOKEN") as [t|]; [destruct (truthy t) eqn:Ht|];
    try (right; left; repeat split; reflexivity).
  destruct (getenv "ASSISTANT_ID") as [a|]; [destruct (truthy a) eqn:Ha|];
    try (right; right; repeat split; reflexivity).
  simpl. repeat split; assumption.
Qed.

(** ** The display *)

Lemma surface_usable_show_text msg self :
  surface_usable (show_text msg self) = surface_usable self.
Proof.
  unfold show_text. destruct (surface_usable self) eqn:E; [|exact E].
  unfold surface_usable, widget_do in *.
  destruct (text_display self); [|discriminate].
  destruct (_ || _); simpl; exact E.
Qed.

Lemma on_screen_show_text msg self :
  surface_usable self = true ->
  on_screen (show_text msg self) = on_screen self ++ [msg].
Proof.
  intros H. unfold show_text, widget_do, on_screen. rewrite H.
  unfold surface_usable in H.
  destruct (text_display self) as [ops|]; [|discriminate].
  destruct (_ || _); simpl; unfold inserted; rewrite flat_map_app;
    reflexivity.
Qed.

Lemma on_screen_show_error msg self :
  surface_usable self = true ->
  on_screen (show_error msg self)
  = on_screen self ++ [nl +:+ "ERROR: " +:+ msg +:+ nl].
Proof.
  intros H. unfold show_error, widget_do, on_screen.
  unfold surface_usable in *. simpl.
  destruct (text_display self) as [ops|]; [|discriminate].
  rewrite H. simpl. unfold inserted. rewrite flat_map_app. reflexivity.
Qed.

Lemma surface_usable_show_error msg self :
  surface_usable (show_error msg self) = surface_usable self.
Proof.
  unfold show_error, widget_do, surface_usable, log;
    cbn [text_display root].
  destruct (text_display self) as [ops|]; [|reflexivity].
  destruct (root self) as [[[] jobs]|]; reflexivity.
Qed.

(** What is on screen followed by what is still queued does not change
    during a pass. *)
Lemma drain_keeps_everything q : forall self,
  surface_usable self = true ->
  surface_usable (drain q self) = true
  /\ on_screen (drain q self)
     ++ flat_map shown_as (message_queue (drain q self))
     = on_screen self ++ flat_map shown_as q.
Proof.
  induction q as [|[msg|] q IH]; intros self H; cbn [drain].
  - split; [exact H|]. reflexivity.
  - cbn [flat_map shown_as]. destruct (String.prefix error_prefix msg).
    + rewrite surface_usable_show_error, show_error_message_queue,
        on_screen_show_error by exact H.
      split; [exact H|]. cbn [with_message_queue message_queue].
      now rewrite <- app_assoc.
    + assert (H' : surface_usable
                     (show_text msg (with_message_queue q self)) = true)
        by (rewrite surface_usable_show_text; exact H).
      destruct (IH _ H') as [Hu Hs]. split; [exact Hu|].
      rewrite Hs, on_screen_show_text by exact H.
      now rewrite <- app_assoc.
  - split; [exact H|]. reflexivity.
Qed.

Lemma drain_shorter q : forall self,
  length (message_queue (drain q self)) <= length q - 1.
Proof.
  induction q as [|[msg|] q IH]; intros self; cbn [drain]; simpl.
  - lia.
  - destruct (String.prefix error_prefix msg).
    + rewrite show_error_message_queue. simpl. lia.
    + specialize (IH (show_text msg (with_message_queue q self))). lia.
  - lia.
Qed.

Lemma update_gui_keeps_everything self :
  surface_usable self = true ->
  surface_usable (update_gui self) = true
  /\ on_screen (update_gui self)
     ++ flat_map shown_as (message_queue (update_gui self))
     = on_screen self ++ flat_map shown_as (message_queue self).
Proof.
  intros H. destruct (drain_keeps_everything (message_queue self) self H)
    as [Hu Hs].
  unfold update_gui. rewrite reschedule_message_queue.
  unfold on_screen, surface_usable in *.
  rewrite reschedule_text_display.
  split; [|exact Hs].
  unfold reschedule.
  destruct (root (drain (message_queue self) self)) as [[[] jobs]|] eqn:E;
    simpl; rewrite ?E; exact Hu.
Qed.

(** X2: on a usable surface, polling at least as many times as there are
    queued events empties the queue, and the widget has then received every
    queued message once, in queue order: a text as it is, a primary error
    wrapped in "\nERROR: ...\n", nothing for the end-of-stream marker. *)
Theorem polling_displays_everything (n : nat) : forall self,
  surface_usable self = true ->
  length (message_queue self) <= n ->
  message_queue (polls n self) = []
  /\ on_screen (polls n self)
     = on_screen self ++ flat_map shown_as (message_queue self).
Proof.
  induction n as [|n IH]; intros self Hu Hn; cbn [polls].
  - destruct (message_queue self); [|simpl in Hn; lia].
    split; [reflexivity | now rewrite app_nil_r].
  - destruct (update_gui_keeps_everything self Hu) as [Hu' Hs].
    assert (Hlen : length (message_queue (update_gui self)) <= n).
    { unfold update_gui. rewrite reschedule_message_queue.
      pose proof (drain_shorter (message_queue self) self). lia. }
    destruct (IH _ Hu' Hlen) as [Hq Hscreen].
    split; [exact Hq|]. now rewrite Hscreen, Hs.
Qed.

Lemma polling_displays_everything_witness :
  on_screen (polls 3 (active_surface
                        [Some "The"; None; Some "An error occurred: boom"]))
  = ["The"; nl +:+ "ERROR: An error occurred: boom" +:+ nl].
Proof.
  apply (polling_displays_everything 3
           (active_surface [Some "The"; None; Some "An error occurred: boom"])).
  - reflexivity.
  - simpl. lia.
Defined.

Lemma drain_takes_a_prefix q : forall self,
  exists taken,
    q = taken ++ message_queue (drain q self) /\ (q <> [] -> taken <> []).
Proof.
  induction q as [|[msg|] q IH]; intros s; cbn [drain].
  - exists []. split; [reflexivity | congruence].
  - destruct (String.prefix error_prefix msg).
    + rewrite show_error_message_queue. exists [Some msg].
      split; [reflexivity | discriminate].
    + destruct (IH (show_text msg (with_message_queue q s)))
        as [taken [Ht _]].
      exists (Some msg :: taken). split; [|discriminate].
      simpl. now rewrite <- Ht.
  - exists [None]. split; [reflexivity | discriminate].
Qed.

(** X3: a pass never re-queues or reorders: what it leaves is a suffix of
    the queue it found, and a proper one when the queue was not empty, so
    every pass over a non-empty queue makes progress. *)
Theorem pass_takes_a_prefix (self : AssistantBot) :
  exists taken,
    message_queue self = taken ++ message_queue (update_gui self)
    /\ (message_queue self <> [] -> taken <> []).
Proof.
  unfold update_gui. rewrite reschedule_message_queue.
  apply drain_takes_a_prefix.
Qed.

Lemma drain_done_queue q : forall self,
  done_queue (drain q self) = done_queue self.
Proof.
  induction q as [|[msg|] q IH]; intros self; cbn [drain]; try reflexivity.
  destruct (String.prefix error_prefix msg).
  - unfold show_error, widget_do. destruct (surface_usable _); [|reflexivity].
    simpl. destruct (text_display self); reflexivity.
  - rewrite IH. unfold show_text, widget_do.
    destruct (surface_usable _); [|reflexivity].
    destruct (_ || _); simpl; destruct (text_display self); reflexivity.
Qed.

Lemma update_gui_done_queue self :
  done_queue (update_gui self) = done_queue self.
Proof.
  unfold update_gui, reschedule.
  destruct (root (drain _ _)) as [[[] jobs]|]; simpl; apply drain_done_queue.
Qed.

(** X4: when no window exists, [create_gui] up to its main loop leaves a
    usable surface with one polling callback registered 100 ms ahead, and
    its first pass starts from the head of the queue as it stands: what it
    has put on the fresh screen followed by what it left queued is everything
    that was queued, in order.  The gate and the completion queue are not
    touched. *)
Theorem fresh_surface_starts_at_queue_head (self : AssistantBot) :
  root_exists self = false ->
  surface_usable (create_gui_open self) = true
  /\ root (create_gui_open self)
     = Some {| winfo_exists := true; after := [100] |}
  /\ on_screen (create_gui_open self)
     ++ flat_map shown_as (message_queue (create_gui_open self))
     = flat_map shown_as (message_queue self)
  /\ is_processing (create_gui_open self) = is_processing self
  /\ done_queue (create_gui_open self) = done_queue self.
Proof.
  intros H. unfold create_gui_open. rewrite H. cbn [negb].
  set (fresh := with_text_display (Some [])
                  (with_root (Some {| winfo_exists := true; after := [] |})
                     self)).
  assert (Hu : surface_usable fresh = true) by reflexivity.
  destruct (update_gui_keeps_everything fresh Hu) as [Hu' Hs].
  repeat split.
  - exact Hu'.
  - apply (reschedule_root (drain (message_queue fresh) fresh)
             {| winfo_exists := true; after := [] |});
      [now rewrite drain_root | reflexivity].
  - exact Hs.
  - now rewrite update_gui_is_processing.
  - now rewrite update_gui_done_queue.
Qed.

Lemma fresh_surface_starts_at_queue_head_witness :
  root (create_gui_open
          (with_message_queue [Some "kept while closed"; None] init))
  = Some {| winfo_exists := true; after := [100] |}.
Proof.
  apply (fresh_surface_starts_at_queue_head
           (with_message_queue [Some "kept while closed"; None] init)).
  reflexivity.
Defined.

Lemma notify_frame (telegram : Telegram) (w : World) :
  fst (check_done_queue_via telegram w)
  = {| bot := with_done_queue
                (done_queue (bot (fst (check_done_queue_via telegram w))))
                (bot w);
       replies := replies (fst (check_done_queue_via telegram w));
       workers := workers w;
       gui_threads := gui_threads w |}.
Proof.
  unfold check_done_queue_via.
  destruct (notify_split telegram (done_queue (bot w)) w)
    as [sent [lost [rest [_ [Hfst _]]]]].
  now rewrite Hfst.
Qed.

(** X6: the two consumers keep to their own channel.  A polling pass changes
    neither the gate nor the completion queue.  A run of the notifier,
    whether it returns or a reply raises, changes nothing of the bot but the
    completion queue, and starts no thread; once a run has returned without
    an exception the queue is empty, and a second run right after it changes
    nothing. *)
Theorem consumers_keep_to_their_channel (telegram : Telegram) (w : World) :
  let tick := check_done_queue_via telegram w in
  is_processing (update_gui (bot w)) = is_processing (bot w)
  /\ done_queue (update_gui (bot w)) = done_queue (bot w)
  /\ bot (fst tick) = with_done_queue (done_queue (bot (fst tick))) (bot w)
  /\ workers (fst tick) = workers w
  /\ gui_threads (fst tick) = gui_threads w
  /\ (snd tick = None ->
      done_queue (bot (fst tick)) = []
      /\ check_done_queue_via telegram (fst tick) = (fst tick, None)).
Proof.
  intros tick.
  split; [apply update_gui_is_processing|].
  split; [apply update_gui_done_queue|].
  split; [unfold tick; now rewrite notify_frame at 1|].
  split; [unfold tick; now rewrite notify_frame|].
  split; [unfold tick; now rewrite notify_frame|].
  unfold tick, check_done_queue_via.
  destruct (notify_split telegram (done_queue (bot w)) w)
    as [sent [lost [rest [_ [Hfst [_ Hsnd]]]]]].
  intros Hnone. rewrite Hnone in Hsnd. destruct Hsnd as [_ ->].
  destruct (notify telegram (done_queue (bot w)) w) as [after outcome].
  cbn [fst snd] in *. subst after. split; reflexivity.
Qed.

Lemma consumers_keep_to_their_channel_witness :
  done_queue (bot (fst (check_done_queue_via bob_unreachable
                          (with_bot (with_done_queue [alice] init) boot))))
  = [].
Proof.
  apply (consumers_keep_to_their_channel bob_unreachable
           (with_bot (with_done_queue [alice] init) boot)).
  reflexivity.
Defined.

(** ** The stream worker, event by event *)

Section EventByEvent.

Variable client : OpenAI.
Variable ASSISTANT_ID : string.
Variable user_message : string.
Variable update : Update.

Local Abbreviation on_ev := (on_event client user_message update).
Local Abbreviation follow_up := (stream_follow_up client user_message).

Lemma stream_follow_up_signals ar :
  signals (fst (follow_up ar)) = []
  /\ filter is_sentinel (pushed (fst (follow_up ar))) = [].
Proof.
  destruct (stream_follow_up_try_trace client user_message ar) as [txts Htr].
  assert (Hsent : forall l, filter is_sentinel (map Some l) = []).
  { induction l as [|x l IHl]; [reflexivity | exact IHl]. }
  unfold stream_follow_up, try_except.
  destruct (snd (stream_follow_up_try client user_message ar)) as [e|[]];
    cbn [fst]; rewrite Htr.
  - cbn [app signals pushed put_text]. fold put_text.
    rewrite signals_app, pushed_app, signals_texts, pushed_texts.
    cbn. rewrite filter_app, Hsent. split; reflexivity.
  - cbn [signals pushed put_text]. fold put_text.
    rewrite signals_texts, pushed_texts. cbn. now rewrite Hsent.
Qed.

Lemma on_event_returns ev ar : exists ar', snd (on_ev ev ar) = inr ar'.
Proof.
  destruct (is_completed ev) eqn:Hc.
  - unfold is_completed in Hc. apply String.eqb_eq in Hc.
    rewrite (on_event_completed _ _ _ _ _ Hc). now eexists.
  - rewrite (on_event_texts client user_message update _ _ Hc). now eexists.
Qed.

Lemma on_event_signals ev ar :
  signals (fst (on_ev ev ar)) = (if is_completed ev then [update] else [])
  /\ length (filter is_sentinel (pushed (fst (on_ev ev ar))))
     = (if is_completed ev then 1 else 0).
Proof.
  destruct (is_completed ev) eqn:Hc.
  - unfold is_completed in Hc. apply String.eqb_eq in Hc.
    rewrite (on_event_completed _ _ _ _ _ Hc). cbn [fst].
    destruct (stream_follow_up_signals ar) as [Hs Hp].
    rewrite signals_app, pushed_app, filter_app, Hs, Hp. split; reflexivity.
  - rewrite (on_event_texts client user_message update _ _ Hc). cbn [fst].
    rewrite signals_texts, pushed_texts. split; [reflexivity|].
    induction (event_texts ev); [reflexivity | assumption].
Qed.

Lemma loop_signals evs : forall ar,
  (exists ar', snd (for_list evs on_ev ar) = inr ar')
  /\ signals (fst (for_list evs on_ev ar))
     = map (fun _ => update) (filter is_completed evs)
  /\ length (filter is_sentinel (pushed (fst (for_list evs on_ev ar))))
     = length (filter is_completed evs).
Proof.
  induction evs as [|ev evs IH]; intros ar; cbn [for_list filter].
  - split; [now eexists | split; reflexivity].
  - destruct (on_event_returns ev ar) as [ar1 Har1].
    destruct (on_event_signals ev ar) as [Hs Hp].
    destruct (IH ar1) as [[ar2 Har2] [Hs' Hp']].
    rewrite (bind_ok _ _ ar1 Har1). cbn [fst snd].
    split; [now exists ar2|].
    rewrite signals_app, pushed_app, filter_app, length_app, Hs, Hs', Hp, Hp'.
    destruct (is_completed ev); split; reflexivity.
Qed.

End EventByEvent.

(** X7: up to the first completion event, the worker pushes exactly the
    values of the text blocks of the delta events, in order, skipping blocks
    of other types, empty deltas and events of other kinds; at the completion
    event the follow-up is run on the concatenation of exactly those texts,
    and is followed by the end-of-stream marker and the completion signal. *)
Theorem follow_up_asked_about_what_was_shown (client : OpenAI)
  (user_message : string) (update : Update)
  (pre : list StreamEvent) (done_ev : StreamEvent) :
  forallb (fun ev => negb (is_completed ev)) pre = true ->
  is_completed done_ev = true ->
  for_list (pre ++ [done_ev]) (on_event client user_message update) ""
  = (map put_text (flat_map event_texts pre)
     ++ fst (stream_follow_up client user_message
               (joined (flat_map event_texts pre)))
     ++ [PutMessage None; PutDone update],
     inr (joined (flat_map event_texts pre))).
Proof.
  intros Hpre Hdone. unfold is_completed in Hdone.
  apply String.eqb_eq in Hdone.
  rewrite for_list_app, (loop_texts client user_message update pre "" Hpre).
  cbn [append].
  rewrite (bind_ok (_, inr (joined (flat_map event_texts pre))) _ _ eq_refl).
  cbn [fst snd for_list].
  rewrite (on_event_completed _ _ _ _ _ Hdone).
  rewrite (bind_ok (_, inr (joined (flat_map event_texts pre))) _ _ eq_refl).
  unfold ret; cbn [fst snd for_list]. now rewrite app_nil_r.
Qed.

Lemma follow_up_asked_about_what_was_shown_witness :
  for_list ([ delta_event "4";
              {| event := "thread.message.delta";
                 data_delta :=
                   Some {| content :=
                             Some [ {| block_type := "image_file";
                                       text_value := "ignored" |};
                                    {| block_type := "text";
                                       text_value := "2" |} ] |} |};
              {| event := "thread.run.step.created"; data_delta := None |} ]
            ++ [completed_event])
    (on_event follow_up_refused "q" alice) ""
  = (map put_text ["4"; "2"]
     ++ fst (stream_follow_up follow_up_refused "q" "42")
     ++ [PutMessage None; PutDone alice],
     inr "42").
Proof.
  apply (follow_up_asked_about_what_was_shown follow_up_refused "q" alice
           [ delta_event "4";
             {| event := "thread.message.delta";
                data_delta :=
                  Some {| content :=
                            Some [ {| block_type := "image_file";
                                      text_value := "ignored" |};
                                   {| block_type := "text";
                                      text_value := "2" |} ] |} |};
             {| event := "thread.run.step.created"; data_delta := None |} ]
           completed_event); reflexivity.
Defined.

(** X8: once the primary call has returned a stream, the worker enqueues one
    completion signal and pushes one end-of-stream marker for every
    "thread.message.completed" event the stream yields, however the stream
    ends and whatever the follow-up calls do: none when there is no such
    event, several when there are several. *)
Theorem one_signal_per_completion_event (client : OpenAI)
  (ASSISTANT_ID user_message : string) (update : Update)
  (st : Stream StreamEvent) :
  let worker := stream_events client ASSISTANT_ID user_message update in
  create_and_run client ASSISTANT_ID (thread_messages user_message) = inr st ->
  signals (fst worker)
  = map (fun _ => update) (filter is_completed (items st))
  /\ length (filter is_sentinel (pushed (fst worker)))
     = length (filter is_completed (items st)).
Proof.
  intros worker Hcall.
  destruct (loop_signals client user_message update (items st) "")
    as [[ar Har] [Hs Hp]].
  assert (Htr : exists tail,
            fst (stream_events_guarded client ASSISTANT_ID user_message update)
            = put_text (answers_separator user_message)
              :: fst (for_list (items st)
                        (on_event client user_message update) "")
                 ++ tail
            /\ signals tail = []
            /\ filter is_sentinel (pushed tail) = []).
  { unfold stream_events_guarded.
    rewrite (stream_events_try_started _ _ _ _ _ Hcall).
    unfold message_queue_put. rewrite bind_emit. unfold for_stream.
    rewrite (bind_ok _ _ ar Har). cbn [fst snd].
    destruct (failure st) as [e|].
    - exists [LogError (error_message e); put_text (error_message e)].
      split; [|split; reflexivity].
      unfold try_except, bind, raise; cbn [fst snd]. cbn.
      now rewrite !app_nil_r.
    - exists []. split; [|split; reflexivity].
      unfold try_except, bind, ret; cbn [fst snd]. cbn.
      now rewrite !app_nil_r. }
  destruct Htr as [tail [Htr [Hts Htp]]].
  unfold worker. rewrite stream_events_frame. cbn [fst signals pushed].
  rewrite Htr. cbn [app signals pushed put_text]. split.
  - rewrite !signals_app, Hs, Hts. cbn [signals]. now rewrite !app_nil_r.
  - cbn [filter is_sentinel]. rewrite !pushed_app, !filter_app, !length_app.
    rewrite Hp, Htp. cbn. lia.
Qed.

Lemma one_signal_per_completion_event_witness :
  signals (fst (stream_events completes_twice "asst" "q" alice))
  = [alice; alice].
Proof.
  apply (one_signal_per_completion_event completes_twice "asst" "q" alice
           {| items := [ delta_event "a"; completed_event;
                         delta_event "b"; completed_event ];
              failure := Some "connection reset" |}).
  reflexivity.
Defined.

(** ** The follow-up worker at its edges *)

(** X9: when the follow-up stream raises after yielding its chunks, the
    texts already streamed stay queued, in order and without the empty ones,
    and the error chunk comes after them: a late failure does not take back
    what was pushed. *)
Theorem follow_up_keeps_text_before_failure (client : OpenAI)
  (user_message assistant_response : string) (st : Stream Chunk) (e : exn) :
  chat_completions_create client
    (follow_up_request user_message assistant_response) = inr st ->
  Forall has_choice (items st) ->
  failure st = Some e ->
  fst (stream_follow_up client user_message assistant_response)
  = put_text follow_up_separator
    :: map put_text (flat_map chunk_text (items st))
       ++ [ LogError (follow_up_error_log e);
            put_text (follow_up_error_message e) ]
  /\ snd (stream_follow_up client user_message assistant_response) = inr tt.
Proof.
  intros Hcall Hch Hend. split; [|apply stream_follow_up_returns].
  unfold stream_follow_up, stream_follow_up_try, message_queue_put.
  rewrite bind_emit, Hcall. unfold call. rewrite bind_ret.
  unfold for_stream. rewrite (follow_up_loop_ok _ Hch), Hend.
  unfold bind, raise, try_except, logger_error, emit; cbn [fst snd].
  cbn [app]. now rewrite app_nil_r.
Qed.

Lemma follow_up_keeps_text_before_failure_witness :
  fst (stream_follow_up
         (scripted (inl "unused")
            (inr {| items := [text_chunk "Why?"; text_chunk ""];
                    failure := Some "timeout" |}))
         "q" "42")
  = put_text follow_up_separator
    :: map put_text ["Why?"]
       ++ [ LogError (follow_up_error_log "timeout");
            put_text (follow_up_error_message "timeout") ].
Proof.
  apply (follow_up_keeps_text_before_failure
           (scripted (inl "unused")
              (inr {| items := [text_chunk "Why?"; text_chunk ""];
                      failure := Some "timeout" |}))
           "q" "42"
           {| items := [text_chunk "Why?"; text_chunk ""];
              failure := Some "timeout" |}
           "timeout").
  - reflexivity.
  - repeat constructor; discriminate.
  - reflexivity.
Defined.

(** X10: a follow-up chunk whose [choices] list is empty makes
    [chunk.choices[0]] raise; the follow-up worker then stops reading the
    stream, reports "list index out of range" as its error chunk after the
    texts pushed so far, and still returns normally.  The chunks behind the
    empty one are never pushed. *)
Theorem follow_up_stops_at_chunk_without_choices (client : OpenAI)
  (user_message assistant_response : string) (st : Stream Chunk)
  (pre : list Chunk) (empty : Chunk) (post : list Chunk) :
  chat_completions_create client
    (follow_up_request user_message assistant_response) = inr st ->
  items st = pre ++ empty :: post ->
  Forall has_choice pre ->
  choices empty = [] ->
  fst (stream_follow_up client user_message assistant_response)
  = put_text follow_up_separator
    :: map put_text (flat_map chunk_text pre)
       ++ [ LogError (follow_up_error_log "list index out of range");
            put_text (follow_up_error_message "list index out of range") ]
  /\ snd (stream_follow_up client user_message assistant_response) = inr tt.
Proof.
  intros Hcall Hitems Hpre Hempty. split; [|apply stream_follow_up_returns].
  unfold stream_follow_up, stream_follow_up_try, message_queue_put.
  rewrite bind_emit, Hcall. unfold call. rewrite bind_ret.
  unfold for_stream. rewrite Hitems, for_list_app, (follow_up_loop_ok _ Hpre).
  rewrite (bind_ok (_, inr tt) _ tt eq_refl). cbn [fst snd for_list].
  assert (Hraise : follow_up_chunk empty tt
                   = ([], inl "list index out of range")).
  { unfold follow_up_chunk, first_choice. now rewrite Hempty. }
  rewrite Hraise.
  unfold bind, raise, try_except, logger_error, emit; cbn [fst snd].
  cbn [app]. now rewrite !app_nil_r.
Qed.

Lemma follow_up_stops_at_chunk_without_choices_witness :
  fst (stream_follow_up
         (scripted (inl "unused")
            (inr {| items := [ text_chunk "Why?"; {| choices := [] |};
                               text_chunk "never shown" ];
                    failure := None |}))
         "q" "42")
  = put_text follow_up_separator
    :: map put_text ["Why?"]
       ++ [ LogError (follow_up_error_log "list index out of range");
            put_text (follow_up_error_message "list index out of range") ].
Proof.
  apply (follow_up_stops_at_chunk_without_choices
           (scripted (inl "unused")
              (inr {| items := [ text_chunk "Why?"; {| choices := [] |};
                                 text_chunk "never shown" ];
                      failure := None |}))
           "q" "42"
           {| items := [ text_chunk "Why?"; {| choices := [] |};
                         text_chunk "never shown" ];
              failure := None |}
           [text_chunk "Why?"] {| choices := [] |}
           [text_chunk "never shown"]).
  - reflexivity.
  - reflexivity.
  - repeat constructor; discriminate.
  - reflexivity.
Defined.

(** ** The notifier *)

Lemma filter_delivers (telegram : Telegram) (sent : list Update) :
  Forall (fun u => telegram u "Done" = None) sent ->
  filter (delivers telegram) sent = sent.
Proof.
  induction 1 as [|u sent Hu _ IH]; [reflexivity|].
  cbn [filter]. unfold delivers at 1. now rewrite Hu, IH.
Qed.

Lemma ticks_deliver (telegram : Telegram) (n : nat) : forall w,
  length (done_queue (bot w)) <= n ->
  done_queue (bot (ticks telegram n w)) = []
  /\ replies (ticks telegram n w)
     = replies w
       ++ done_replies (filter (delivers telegram) (done_queue (bot w))).
Proof.
  induction n as [|n IH]; intros w Hlen; cbn [ticks].
  - destruct (done_queue (bot w)); [|simpl in Hlen; lia].
    unfold done_replies. cbn [filter map]. now rewrite app_nil_r.
  - unfold check_done_queue_via.
    destruct (notify_split telegram (done_queue (bot w)) w)
      as [sent [lost [rest [Hq [Hfst [Hsent Hsnd]]]]]].
    rewrite Hq in Hlen. rewrite !length_app in Hlen.
    assert (Hrest : length rest <= n
                    /\ filter (delivers telegram) lost = []).
    { destruct (snd (notify telegram (done_queue (bot w)) w)) as [e|].
      - destruct Hsnd as [u [-> Hu]]. cbn [length] in Hlen.
        split; [lia|]. cbn [filter]. unfold delivers. now rewrite Hu.
      - destruct Hsnd as [-> ->]. split; [cbn [length]; lia | reflexivity]. }
    destruct Hrest as [Hrest Hlost].
    destruct (IH (fst (notify telegram (done_queue (bot w)) w)))
      as [Hempty Hreplies].
    { rewrite Hfst. exact Hrest. }
    split; [exact Hempty|].
    rewrite Hreplies, Hfst, Hq. cbn [bot replies done_queue with_done_queue].
    rewrite !filter_app, (filter_delivers _ _ Hsent), Hlost.
    unfold done_replies. cbn [app]. now rewrite map_app, <- app_assoc.
Qed.

(** X11: the notifier tells the queued originators "Done" in queue order,
    each at most once, and loses a completion signal only when the reply for
    it raises.  One run of the job tells a prefix of the queue; it either
    empties the queue and returns, or stops at the first reply that raises:
    that signal is off the queue already and gets no reply, the signals
    behind it stay queued in order, and the exception escapes.  After at
    least as many runs as there were signals queued, the queue is empty and
    those told "Done" are the queued originators whose reply goes through,
    in order. *)
Theorem completion_signals_delivered_in_order (telegram : Telegram)
  (w : World) :
  let tick := check_done_queue_via telegram w in
  (exists sent lost,
     done_queue (bot w) = sent ++ lost ++ done_queue (bot (fst tick))
     /\ replies (fst tick) = replies w ++ done_replies sent
     /\ Forall (fun u => telegram u "Done" = None) sent
     /\ match snd tick with
        | None => lost = [] /\ done_queue (bot (fst tick)) = []
        | Some e => exists u, lost = [u] /\ telegram u "Done" = Some e
        end)
  /\ forall n,
       length (done_queue (bot w)) <= n ->
       done_queue (bot (ticks telegram n w)) = []
       /\ replies (ticks telegram n w)
          = replies w
            ++ done_replies
                 (filter (delivers telegram) (done_queue (bot w))).
Proof.
  intros tick. split; [|intros n; apply ticks_deliver].
  unfold tick, check_done_queue_via.
  destruct (notify_split telegram (done_queue (bot w)) w)
    as [sent [lost [rest [Hq [Hfst [Hsent Hsnd]]]]]].
  exists sent, lost. rewrite Hfst. cbn [bot replies done_queue with_done_queue].
  repeat split; assumption.
Qed.

Lemma completion_signals_delivered_in_order_witness :
  replies (ticks bob_unreachable 3
             (with_bot (with_done_queue [alice; bob; alice] init) boot))
  = [(alice, "Done"); (alice, "Done")].
Proof.
  apply (proj2 (completion_signals_delivered_in_order bob_unreachable
                  (with_bot (with_done_queue [alice; bob; alice] init) boot))
           3).
  simpl. lia.
Defined.

(** ** The process as a whole *)

Section WholeProcess.

Variable client : OpenAI.
Variable ASSISTANT_ID : string.

Local Abbreviation exec' := (exec client ASSISTANT_ID).
Local Abbreviation run' := (run client ASSISTANT_ID).
Local Abbreviation handle := (handle_message client ASSISTANT_ID).

Lemma advance_at ts : forall i t ef rest self,
  nth_error ts i = Some t -> todo t = ef :: rest ->
  snd (advance i ts self) = apply_effect self ef
  /\ nth_error (fst (advance i ts self)) i
     = Some {| made := made t ++ [ef]; todo := rest |}
  /\ length (fst (advance i ts self)) = length ts.
Proof.
  induction ts as [|t0 ts IH]; intros i t ef rest self Hnth Htodo.
  - destruct i; discriminate.
  - destruct i as [|i]; cbn [advance].
    + injection Hnth as ->. rewrite Htodo. repeat split.
    + simpl in Hnth. destruct (IH i t ef rest self Hnth Htodo)
        as [H1 [H2 H3]].
      cbn [fst snd nth_error length]. now rewrite H1, H2, H3.
Qed.

Lemma advance_finished ts : forall i t self,
  nth_error ts i = Some t -> todo t = [] -> advance i ts self = (ts, self).
Proof.
  induction ts as [|t0 ts IH]; intros i t self Hnth Htodo.
  - destruct i; discriminate.
  - destruct i as [|i]; cbn [advance].
    + injection Hnth as ->. now rewrite Htodo.
    + simpl in Hnth. now rewrite (IH i t self Hnth Htodo).
Qed.

Lemma drive_runs_thread (n : nat) : forall i w t,
  nth_error (workers w) i = Some t ->
  length (todo t) = n ->
  bot (drive i n w) = fold_left apply_effect (todo t) (bot w)
  /\ nth_error (workers (drive i n w)) i
     = Some {| made := made t ++ todo t; todo := [] |}
  /\ replies (drive i n w) = replies w
  /\ length (workers (drive i n w)) = length (workers w)
  /\ gui_threads (drive i n w) = gui_threads w.
Proof.
  induction n as [|n IH]; intros i w t Hnth Hlen; cbn [drive].
  - destruct (todo t) eqn:Htodo; [|discriminate].
    rewrite app_nil_r. repeat split. rewrite Hnth. f_equal.
    destruct t; simpl in *. now subst.
  - destruct (todo t) as [|ef rest] eqn:Htodo; [discriminate|].
    injection Hlen as Hlen.
    destruct (advance_at (workers w) i t ef rest (bot w) Hnth Htodo)
      as [H1 [H2 H3]].
    assert (Hnth' : nth_error (workers (worker_step i w)) i
                    = Some {| made := made t ++ [ef]; todo := rest |})
      by exact H2.
    destruct (IH i (worker_step i w) _ Hnth' Hlen)
      as [Hb [Hw [Hr [Hl Hg]]]].
    cbn [made todo] in Hb, Hw. rewrite Hb, Hw, Hr, Hl, Hg.
    unfold worker_step, with_bot, with_workers;
      cbn [bot workers replies gui_threads fold_left].
    rewrite H1, H3, <- app_assoc. repeat split.
Qed.

(** A worker thread that makes its writes one at a time, with nothing
    scheduled in between, leaves the shared state exactly as the run in one
    go does; once it has made its last write, scheduling it again changes
    nothing. *)
Theorem stepwise_run_is_the_run (i : nat) (w : World) (t : Thread) :
  nth_error (workers w) i = Some t ->
  bot (drive i (length (todo t)) w) = fold_left apply_effect (todo t) (bot w)
  /\ nth_error (workers (drive i (length (todo t)) w)) i
     = Some {| made := made t ++ todo t; todo := [] |}
  /\ worker_step i (drive i (length (todo t)) w)
     = drive i (length (todo t)) w.
Proof.
  intros Hnth.
  destruct (drive_runs_thread (length (todo t)) i w t Hnth eq_refl)
    as [Hb [Hw _]].
  repeat split; [exact Hb | exact Hw |].
  unfold worker_step.
  rewrite (advance_finished _ i _ _ Hw eq_refl).
  unfold with_bot, with_workers; cbn [fst snd bot workers].
  now destruct (drive i (length (todo t)) w).
Qed.

Lemma handle_message_accepts (update : Update) (w : World) :
  is_processing (bot w) = false ->
  workers (handle update w)
  = workers w
    ++ [ {| made := [];
            todo := fst (stream_events client ASSISTANT_ID
                           (text (message update)) update) |} ]
  /\ bot (handle update w)
     = log INFO ("Received message: " +:+ text (message update)) (bot w)
  /\ replies (handle update w)
     = replies w ++ [(update, "Processing your request...")].
Proof.
  intros Hgate. unfold handle_message. rewrite Hgate.
  unfold start_streaming, reply_text, with_workers, with_bot,
    with_gui_threads; cbn [replies bot workers gui_threads].
  destruct (negb _); repeat split.
Qed.

(** X12: the gate does not stay shut.  If a message is accepted and its
    worker then runs to its end, whatever the two completion calls did, the
    state has the worker's messages queued behind the earlier ones, the gate
    is free again, and the next message is accepted and gets a worker of its
    own. *)
Theorem next_request_accepted_after_any_run (first second : Update)
  (w : World) :
  let script :=
    fst (stream_events client ASSISTANT_ID (text (message first)) first) in
  let after_first :=
    drive (length (workers w)) (length script) (handle first w) in
  is_processing (bot w) = false ->
  is_processing (bot after_first) = false
  /\ message_queue (bot after_first)
     = message_queue (bot w) ++ pushed script
  /\ replies (handle second after_first)
     = replies w ++ [ (first, "Processing your request...");
                      (second, "Processing your request...") ]
  /\ length (workers (handle second after_first))
     = S (S (length (workers w))).
Proof.
  intros script after_first Hgate.
  destruct (handle_message_accepts first w Hgate) as [Hw [Hb Hr]].
  assert (Hnth : nth_error (workers (handle first w)) (length (workers w))
                 = Some {| made := []; todo := script |}).
  { rewrite Hw, nth_error_app2, Nat.sub_diag by lia. reflexivity. }
  destruct (drive_runs_thread (length script) (length (workers w))
              (handle first w) _ Hnth eq_refl)
    as [Hb' [_ [Hr' [Hl' _]]]].
  cbn [todo] in Hb'. fold after_first in Hb', Hr', Hl'.
  assert (Hfree : is_processing (bot after_first) = false).
  { rewrite Hb', replay_is_processing. unfold script.
    rewrite stream_events_frame. cbn [fst gate_writes].
    rewrite gate_writes_app,
      (leaves_gate_writes _
         (stream_events_guarded_leaves_gate client ASSISTANT_ID
            (text (message first)) first)).
    reflexivity. }
  destruct (handle_message_accepts second after_first Hfree)
    as [Hw2 [_ Hr2]].
  repeat split.
  - exact Hfree.
  - rewrite Hb', replay_message_queue, Hb. reflexivity.
  - rewrite Hr2, Hr', Hr, <- app_assoc. reflexivity.
  - rewrite Hw2, length_app, Hl', Hw, length_app. simpl. lia.
Qed.

End WholeProcess.

Lemma stepwise_run_is_the_run_witness :
  bot (drive 0 11 (handle_message answers_42 "asst" alice boot))
  = fold_left apply_effect
      (fst (stream_events answers_42 "asst" "What is the answer?" alice))
      (bot (handle_message answers_42 "asst" alice boot)).
Proof.
  apply (stepwise_run_is_the_run 0
           (handle_message answers_42 "asst" alice boot)
           {| made := [];
              todo := fst (stream_events answers_42 "asst"
                             "What is the answer?" alice) |}).
  reflexivity.
Defined.

Lemma next_request_accepted_after_any_run_witness :
  is_processing
    (bot (drive 0
            (length (fst (stream_events fails_mid_stream "asst"
                            (text (message alice)) alice)))
            (handle_message fails_mid_stream "asst" alice boot)))
  = false.
Proof.
  apply (next_request_accepted_after_any_run fails_mid_stream "asst"
           alice bob boot).
  reflexivity.
Defined.

(** ** The window *)

Lemma show_text_unusable msg self :
  surface_usable self = false -> show_text msg self = self.
Proof. intros H. unfold show_text. now rewrite H. Qed.

Lemma drain_unusable q : forall self,
  surface_usable self = false ->
  passes q = true ->
  drain q self = with_message_queue [] self.
Proof.
  induction q as [|[msg|] q IH]; intros self Hu Hq; cbn [drain].
  - reflexivity.
  - simpl in Hq. destruct (String.prefix error_prefix msg);
      [discriminate|]. simpl in Hq.
    rewrite show_text_unusable by exact Hu.
    rewrite IH by assumption. reflexivity.
  - discriminate.
Qed.

(** X14: events drained while the surface is not usable are dropped.  A pass
    run when the widget or the window is missing still takes the queued
    texts off the queue, and puts them nowhere: the queue ends up empty, the
    widget and the log are as before, and a later surface cannot show them. *)
Theorem unusable_surface_drops_events (self : AssistantBot) :
  surface_usable self = false ->
  passes (message_queue self) = true ->
  message_queue (update_gui self) = []
  /\ text_display (update_gui self) = text_display self
  /\ logger (update_gui self) = logger self
  /\ on_screen (create_gui_open (create_gui_close (update_gui self))) = [].
Proof.
  intros Hu Hq.
  assert (Hd : drain (message_queue self) self = with_message_queue [] self)
    by now apply drain_unusable.
  assert (Hg : update_gui self = reschedule (with_message_queue [] self))
    by (unfold update_gui; now rewrite Hd).
  rewrite Hg. repeat split.
  - now rewrite reschedule_message_queue.
  - now rewrite reschedule_text_display.
  - unfold reschedule. cbn [with_message_queue root].
    destruct (root self) as [[[] jobs]|]; reflexivity.
  - unfold reschedule. cbn [with_message_queue root].
    destruct (root self) as [[[] jobs]|]; reflexivity.
Qed.

Lemma unusable_surface_drops_events_witness :
  message_queue
    (update_gui (with_message_queue [Some "The"; Some " answer"] init))
  = [].
Proof.
  apply (unusable_surface_drops_events
           (with_message_queue [Some "The"; Some " answer"] init));
    reflexivity.
Defined.

Section Window.

Variable client : OpenAI.
Variable ASSISTANT_ID : string.


End Window.

